(** * Multiport: a shallow embedding of the private [_Port] class

    The development follows [index.esm.js] (class [_Port], the helpers
    [getPrivate], [isPromise], [reportError] and the public wrappers of
    class [Port]); the module [IndexJs] gives what the older build
    [index.js] does differently.  JavaScript values are an inductive type,
    the instance fields of [_Port] are a record, and every method is a
    function in a state-and-exception monad over that record.  Everything
    the class does to the outside world (adapter sends, promise
    settlements, diagnostics) is recorded in the [log] field of the state.

    What is outside the class is a parameter: the adapter ([PortAdapter])
    and the host ([Host]: random ids, the functions of the application,
    regular expressions, the conversions of the language).  Three things
    are taken of them.  The adapter's [send] and its reply function
    return; a function of the application does not call into the Port
    while it runs; a regular expression keeps no state between tests.
    Numbers are integers or [NaN], and a [Map] key that is an object is
    compared by structure. *)

From Stdlib Require Import ZArith String List Bool Lia.
From stdpp Require Import base decidable list strings pretty.
Import ListNotations.
Set Warnings "-register-all".
Local Open Scope string_scope.
Local Open Scope Z_scope.

(** ** JavaScript values *)

(** Function references.  A function of the application has an address and
    its [.name]; a stub is the arrow function allocated by [unmapValue],
    identified by its allocation number. *)
Inductive FunRef :=
| FLocal (addr : nat) (name : string)
| FStub (serial : nat).

(** Promises: the promise of the [PromiseCapability] created for request
    [id], or a promise made elsewhere (by a handler or by the adapter). *)
Inductive PromiseRef :=
| PRequest (id : Z)
| PForeign (n : nat).

(** Numbers are modelled by the integers plus [NaN]: the class only
    compares numbers with small constants, negates them, increments its
    counter and uses them as [Map] keys.  An object carries the name its
    [value.constructor.name] evaluates to ([None] when [value.constructor]
    is falsy) and its properties in the order in which the language lists
    them; an inherited data property that the class reads (the [name] of
    an error) is listed with the own ones. *)
Inductive Value :=
| VUndef
| VNull
| VBool (b : bool)
| VNum (n : Z)
| VNaN
| VStr (s : string)
| VFun (f : FunRef)
| VRegExp (r : nat)
| VPromise (p : PromiseRef)
| VArr (xs : list Value)
| VObj (ctor : option string) (props : list (string * Value)).

#[global] Instance FunRef_eq_dec : EqDecision FunRef.
Proof. solve_decision. Defined.

#[global] Instance PromiseRef_eq_dec : EqDecision PromiseRef.
Proof. solve_decision. Defined.

(** Structural equality of values, written out because [Value] is nested
    in [list]. *)
Fixpoint Value_eqb (a b : Value) {struct a} : bool :=
  match a, b with
  | VUndef, VUndef => true
  | VNull, VNull => true
  | VBool x, VBool y => Bool.eqb x y
  | VNum x, VNum y => Z.eqb x y
  | VNaN, VNaN => true
  | VStr x, VStr y => bool_decide (x = y)
  | VFun f, VFun g => bool_decide (f = g)
  | VRegExp r, VRegExp r' => Nat.eqb r r'
  | VPromise p, VPromise q => bool_decide (p = q)
  | VArr xs, VArr ys =>
      (fix go (xs ys : list Value) {struct xs} : bool :=
         match xs, ys with
         | [], [] => true
         | x :: xs', y :: ys' => Value_eqb x y && go xs' ys'
         | _, _ => false
         end) xs ys
  | VObj c p, VObj d q =>
      bool_decide (c = d) &&
      (fix go (p q : list (string * Value)) {struct p} : bool :=
         match p, q with
         | [], [] => true
         | (k, x) :: p', (l, y) :: q' =>
             bool_decide (k = l) && Value_eqb x y && go p' q'
         | _, _ => false
         end) p q
  | _, _ => false
  end.

(** Induction over values that also gives the hypothesis for the elements
    of an array and for the property values of an object. *)
Fixpoint Value_nested_ind (P : Value -> Prop)
    (HUndef : P VUndef) (HNull : P VNull)
    (HBool : forall b, P (VBool b)) (HNum : forall n, P (VNum n))
    (HNaN : P VNaN) (HStr : forall s, P (VStr s))
    (HFun : forall f, P (VFun f)) (HRegExp : forall r, P (VRegExp r))
    (HPromise : forall p, P (VPromise p))
    (HArr : forall xs, Forall P xs -> P (VArr xs))
    (HObj : forall c props, Forall (fun kv => P (snd kv)) props -> P (VObj c props))
    (v : Value) {struct v} : P v :=
  let rec := Value_nested_ind P HUndef HNull HBool HNum HNaN HStr HFun
               HRegExp HPromise HArr HObj in
  match v with
  | VUndef => HUndef
  | VNull => HNull
  | VBool b => HBool b
  | VNum n => HNum n
  | VNaN => HNaN
  | VStr s => HStr s
  | VFun f => HFun f
  | VRegExp r => HRegExp r
  | VPromise p => HPromise p
  | VArr xs =>
      HArr xs ((fix all (l : list Value) : Forall P l :=
                  match l with
                  | [] => @List.Forall_nil _ P
                  | x :: l' => @List.Forall_cons _ P x l' (rec x) (all l')
                  end) xs)
  | VObj c props =>
      HObj c props
        ((fix all (l : list (string * Value)) : Forall (fun kv => P (snd kv)) l :=
            match l with
            | [] => @List.Forall_nil _ (fun kv => P (snd kv))
            | (k, x) :: l' => @List.Forall_cons _ (fun kv => P (snd kv)) (k, x) l' (rec x) (all l')
            end) props)
  end.

Lemma Value_eqb_eq (a b : Value) : Value_eqb a b = true <-> a = b.
Proof.
  revert b. induction a using Value_nested_ind; intros rhs; destruct rhs;
    simpl; try (split; [discriminate | congruence]); try tauto.
  - rewrite Bool.eqb_true_iff. split; congruence.
  - rewrite Z.eqb_eq. split; congruence.
  - rewrite bool_decide_eq_true. split; congruence.
  - rewrite bool_decide_eq_true. split; congruence.
  - rewrite Nat.eqb_eq. split; congruence.
  - rewrite bool_decide_eq_true. split; congruence.
  - revert xs0. induction H as [|x xs Hx _ IH]; intros [|y ys];
      try (split; [discriminate | congruence]); try tauto.
    rewrite andb_true_iff, Hx.
    specialize (IH ys). split.
    + intros [-> Hgo]. apply IH in Hgo. congruence.
    + intros [= -> ->]. split; [reflexivity|]. apply IH. reflexivity.
  - rewrite andb_true_iff, bool_decide_eq_true.
    revert props0. induction H as [|[k x] p Hx _ IH]; intros [|[l y] q];
      try (split; [intros [_ ?]; discriminate | congruence]).
    + split; [intros [-> _]; reflexivity | intros [= ->]; tauto].
    + simpl in Hx. rewrite !andb_true_iff, bool_decide_eq_true, Hx.
      specialize (IH q). split.
      * intros [-> [[-> ->] Hgo]].
        assert (VObj ctor p = VObj ctor q) as [= ->] by (apply IH; tauto).
        reflexivity.
      * intros [= -> -> -> ->]. repeat split. apply IH. reflexivity.
Qed.

#[global] Instance Value_eq_dec : EqDecision Value.
Proof.
  intros a b. destruct (Value_eqb a b) eqn:E.
  - left. apply Value_eqb_eq, E.
  - right. intros Heq. apply Value_eqb_eq in Heq. congruence.
Defined.

(** ** [Map] and [WeakMap]

    A [Map] is a list of entries in insertion order with at most one entry
    per key: [set] on a present key replaces the value where it stands, on
    an absent key appends.  [WeakMap]s are modelled the same way (the class
    never iterates over them). *)
Section JsMap.
Context {K V : Type} `{EqDecision K}.

Fixpoint mget (k : K) (m : list (K * V)) : option V :=
  match m with
  | [] => None
  | (k', v) :: m' => if decide (k = k') then Some v else mget k m'
  end.

Definition mhas (k : K) (m : list (K * V)) : bool :=
  match mget k m with Some _ => true | None => false end.

Fixpoint mset (k : K) (v : V) (m : list (K * V)) : list (K * V) :=
  match m with
  | [] => [(k, v)]
  | (k', v') :: m' =>
      if decide (k = k') then (k, v) :: m' else (k', v') :: mset k v m'
  end.

Fixpoint mdelete (k : K) (m : list (K * V)) : list (K * V) :=
  match m with
  | [] => []
  | (k', v') :: m' =>
      if decide (k = k') then mdelete k m' else (k', v') :: mdelete k m'
  end.

Lemma mget_mset_eq k v m : mget k (mset k v m) = Some v.
Proof.
  induction m as [|[k' v'] m IH]; simpl.
  - destruct (decide (k = k)); congruence.
  - destruct (decide (k = k')) as [->|Hne]; simpl.
    + destruct (decide (k' = k')); congruence.
    + destruct (decide (k = k')); [contradiction | exact IH].
Qed.

Lemma mget_mset_ne k k' v m : k <> k' -> mget k' (mset k v m) = mget k' m.
Proof.
  intros Hne. induction m as [|[k0 v0] m IH]; simpl.
  - destruct (decide (k' = k)); congruence.
  - destruct (decide (k = k0)) as [->|Hk]; simpl.
    + destruct (decide (k' = k0)); congruence.
    + destruct (decide (k' = k0)); [reflexivity | exact IH].
Qed.

Lemma mget_mset_same k v m : mget k m = Some v -> mset k v m = m.
Proof.
  induction m as [|[k0 v0] m IH]; simpl; [discriminate|].
  destruct (decide (k = k0)) as [->|Hk].
  - intros [= ->]. reflexivity.
  - intros Hg. rewrite IH; auto.
Qed.

Lemma mget_mdelete_eq k m : mget k (mdelete k m) = None.
Proof.
  induction m as [|[k0 v0] m IH]; simpl; [reflexivity|].
  destruct (decide (k = k0)) as [->|Hk]; simpl; [exact IH|].
  destruct (decide (k = k0)); [contradiction | exact IH].
Qed.

Lemma mget_mdelete_ne k k' m : k <> k' -> mget k' (mdelete k m) = mget k' m.
Proof.
  intros Hne. induction m as [|[k0 v0] m IH]; simpl; [reflexivity|].
  destruct (decide (k = k0)) as [->|Hk]; simpl.
  - destruct (decide (k' = k0)); [congruence | exact IH].
  - destruct (decide (k' = k0)); [reflexivity | exact IH].
Qed.

Lemma mget_In k v m : mget k m = Some v -> In (k, v) m.
Proof.
  induction m as [|[k0 v0] m IH]; simpl; [discriminate|].
  destruct (decide (k = k0)) as [->|Hk].
  - intros [= ->]. left. reflexivity.
  - intros Hg. right. auto.
Qed.
End JsMap.

(** ** Operators of the language *)

(** [typeof value] *)
Definition typeof (v : Value) : string :=
  match v with
  | VUndef => "undefined"
  | VNull => "object"
  | VBool _ => "boolean"
  | VNum _ | VNaN => "number"
  | VStr _ => "string"
  | VFun _ => "function"
  | VRegExp _ | VPromise _ | VArr _ | VObj _ _ => "object"
  end.

(** The value counts as true in a condition, [!value] is its negation. *)
Definition truthy (v : Value) : bool :=
  match v with
  | VUndef | VNull | VNaN => false
  | VBool b => b
  | VNum n => negb (n =? 0)
  | VStr s => negb (bool_decide (s = ""))
  | VFun _ | VRegExp _ | VPromise _ | VArr _ | VObj _ _ => true
  end.

(** [typeof value === 'object' && value !== null] *)
Definition isObject (v : Value) : bool :=
  match v with
  | VRegExp _ | VPromise _ | VArr _ | VObj _ _ => true
  | _ => false
  end.

(** [key in value], for an object ([isObject]): arrays, promises and
    regular expressions have no property named by the keys the class asks
    for (the empty string). *)
Definition hasProp (key : string) (v : Value) : bool :=
  match v with
  | VObj _ props => mhas key props
  | _ => false
  end.

(** [value.key] where the read cannot throw ([value] is neither [null] nor
    [undefined]); an absent property reads as [undefined]. *)
Definition getProp (key : string) (v : Value) : Value :=
  match v with
  | VObj _ props => default VUndef (mget key props)
  | _ => VUndef
  end.

(** [value.constructor && value.constructor.name] as a string, for an
    object. *)
Definition constructorName (v : Value) : option string :=
  match v with
  | VObj c _ => c
  | VArr _ => Some "Array"
  | VPromise _ => Some "Promise"
  | VRegExp _ => Some "RegExp"
  | _ => None
  end.

Definition ends_with (suffix s : string) : bool :=
  let n := String.length s in
  let k := String.length suffix in
  (k <=? n)%nat && bool_decide (String.substring (n - k) k s = suffix).

(** [isObject && value.constructor && (/Error$/).test(value.constructor.name)] *)
Definition isErrorLike (v : Value) : bool :=
  isObject v &&
  match constructorName v with
  | Some c => ends_with "Error" c
  | None => false
  end.

(** [function isPromise(value)]: an object with a [then] method whose
    constructor takes an executor; these are the values [VPromise]. *)
Definition isPromise (v : Value) : bool :=
  match v with
  | VPromise _ => true
  | _ => false
  end.

(** [f.name] of a function; the stub is an anonymous arrow function. *)
Definition fun_name (f : FunRef) : string :=
  match f with
  | FLocal _ name => name
  | FStub _ => ""
  end.

(** An object literal [{ k: v, ... }]. *)
Definition literal (props : list (string * Value)) : Value :=
  VObj (Some "Object") props.

(** [id === 0] *)
Definition is_zero (v : Value) : bool :=
  match v with
  | VNum n => n =? 0
  | _ => false
  end.

(** [value[i]] for a constant index [i]: reading an index of [null] or
    [undefined] throws ([None]); an array gives its element, a string its
    character, an object its property of that name, and what is absent
    reads as [undefined]. *)
Definition js_index (v : Value) (i : nat) : option Value :=
  match v with
  | VUndef | VNull => None
  | VArr xs => Some (nth i xs VUndef)
  | VStr s =>
      Some (match String.get i s with
            | Some c => VStr (String c EmptyString)
            | None => VUndef
            end)
  | VObj _ props => Some (default VUndef (mget (pretty i) props))
  | _ => Some VUndef
  end.

(** ** Observable effects *)

(** What is attached to a promise a handler returned: the rejection-only
    reaction of a post, or the two reactions that send the reply of a
    request ([reply] is the adapter's reply function when it gave one). *)
Inductive Continuation :=
| KReportAsync
| KReplyAsync (reply : option nat) (id : Value).

Inductive Event :=
| EvSend (name : string) (id : Value) (args : list Value) (options : Value)
| EvReply (reply : nat) (name : string) (id : Value) (args : list Value)
| EvApply (f : FunRef) (this : Value) (args : list Value)
| EvResolve (p : PromiseRef) (v : Value)
| EvReject (p : PromiseRef) (v : Value)
| EvThen (promise : Value) (k : Continuation)
| EvReportError (args : list Value)
| EvConsoleError (e : Value)
| EvOnEnd (v : Value)
| EvAdapterDestroy.

#[global] Instance Continuation_eq_dec : EqDecision Continuation.
Proof. solve_decision. Defined.

#[global] Instance Event_eq_dec : EqDecision Event.
Proof. solve_decision. Defined.

(** ** The instance fields of [_Port]

    [port] and [public] are [false] once they are [null]; [ended] is
    [true] once the field holds [true] instead of the promise; a
    [PromiseCapability] is represented by its promise.  Three fields are
    not in the source: [randomCalls] counts the calls of [getRandomId],
    [closures] holds, per stub allocated so far, the [cbId] its closure
    captured, and [log] lists the effects, the newest first. *)
Record PortState := mkPortState {
  port : bool;
  requests : list (Z * PromiseRef);
  handlers : list (string * (FunRef * Value));
  wildcards : list (nat * (FunRef * Value));
  lastId : Z;
  cb2id : list (FunRef * Value);
  id2cb : list (Value * FunRef);
  endQueue : list (Value * Value);
  ended : bool;
  _isRequest : Z;
  public : bool;
  randomCalls : nat;
  closures : list Value;
  log : list Event
}.

Definition set_port (f : bool -> bool) (s : PortState) : PortState :=
  mkPortState (f (port s)) (requests s) (handlers s) (wildcards s)
    (lastId s) (cb2id s) (id2cb s) (endQueue s) (ended s) (_isRequest s)
    (public s) (randomCalls s) (closures s) (log s).

Definition set_requests
    (f : list (Z * PromiseRef) ->
         list (Z * PromiseRef))
    (s : PortState) : PortState :=
  mkPortState (port s) (f (requests s)) (handlers s) (wildcards s)
    (lastId s) (cb2id s) (id2cb s) (endQueue s) (ended s) (_isRequest s)
    (public s) (randomCalls s) (closures s) (log s).

Definition set_handlers
    (f : list (string * (FunRef * Value)) ->
         list (string * (FunRef * Value)))
    (s : PortState) : PortState :=
  mkPortState (port s) (requests s) (f (handlers s)) (wildcards s)
    (lastId s) (cb2id s) (id2cb s) (endQueue s) (ended s) (_isRequest s)
    (public s) (randomCalls s) (closures s) (log s).

Definition set_wildcards
    (f : list (nat * (FunRef * Value)) ->
         list (nat * (FunRef * Value)))
    (s : PortState) : PortState :=
  mkPortState (port s) (requests s) (handlers s) (f (wildcards s))
    (lastId s) (cb2id s) (id2cb s) (endQueue s) (ended s) (_isRequest s)
    (public s) (randomCalls s) (closures s) (log s).

Definition set_lastId (f : Z -> Z) (s : PortState) : PortState :=
  mkPortState (port s) (requests s) (handlers s) (wildcards s)
    (f (lastId s)) (cb2id s) (id2cb s) (endQueue s) (ended s) (_isRequest s)
    (public s) (randomCalls s) (closures s) (log s).

Definition set_cb2id
    (f : list (FunRef * Value) ->
         list (FunRef * Value))
    (s : PortState) : PortState :=
  mkPortState (port s) (requests s) (handlers s) (wildcards s) (lastId s)
    (f (cb2id s)) (id2cb s) (endQueue s) (ended s) (_isRequest s) (public s)
    (randomCalls s) (closures s) (log s).

Definition set_id2cb
    (f : list (Value * FunRef) ->
         list (Value * FunRef))
    (s : PortState) : PortState :=
  mkPortState (port s) (requests s) (handlers s) (wildcards s) (lastId s)
    (cb2id s) (f (id2cb s)) (endQueue s) (ended s) (_isRequest s) (public s)
    (randomCalls s) (closures s) (log s).

Definition set_endQueue
    (f : list (Value * Value) ->
         list (Value * Value))
    (s : PortState) : PortState :=
  mkPortState (port s) (requests s) (handlers s) (wildcards s) (lastId s)
    (cb2id s) (id2cb s) (f (endQueue s)) (ended s) (_isRequest s) (public s)
    (randomCalls s) (closures s) (log s).

Definition set_ended (f : bool -> bool) (s : PortState) : PortState :=
  mkPortState (port s) (requests s) (handlers s) (wildcards s) (lastId s)
    (cb2id s) (id2cb s) (endQueue s) (f (ended s)) (_isRequest s) (public s)
    (randomCalls s) (closures s) (log s).

Definition set_isRequest (f : Z -> Z) (s : PortState) : PortState :=
  mkPortState (port s) (requests s) (handlers s) (wildcards s) (lastId s)
    (cb2id s) (id2cb s) (endQueue s) (ended s) (f (_isRequest s)) (public s)
    (randomCalls s) (closures s) (log s).

Definition set_public (f : bool -> bool) (s : PortState) : PortState :=
  mkPortState (port s) (requests s) (handlers s) (wildcards s) (lastId s)
    (cb2id s) (id2cb s) (endQueue s) (ended s) (_isRequest s) (f (public s))
    (randomCalls s) (closures s) (log s).

Definition set_randomCalls (f : nat -> nat) (s : PortState) : PortState :=
  mkPortState (port s) (requests s) (handlers s) (wildcards s) (lastId s)
    (cb2id s) (id2cb s) (endQueue s) (ended s) (_isRequest s) (public s)
    (f (randomCalls s)) (closures s) (log s).

Definition set_closures
    (f : list Value ->
         list Value)
    (s : PortState) : PortState :=
  mkPortState (port s) (requests s) (handlers s) (wildcards s) (lastId s)
    (cb2id s) (id2cb s) (endQueue s) (ended s) (_isRequest s) (public s)
    (randomCalls s) (f (closures s)) (log s).

Definition set_log (f : list Event -> list Event) (s : PortState) : PortState :=
  mkPortState (port s) (requests s) (handlers s) (wildcards s) (lastId s)
    (cb2id s) (id2cb s) (endQueue s) (ended s) (_isRequest s) (public s)
    (randomCalls s) (closures s) (f (log s)).

(** ** Computations of a method: state and exceptions

    A method runs on the fields and completes normally with a value or
    abruptly with a thrown value; the fields keep what was written before
    a [throw]. *)
Inductive Completion (A : Type) :=
| Normal (a : A) (s : PortState)
| Throw (e : Value) (s : PortState).
Arguments Normal {A} a s.
Arguments Throw {A} e s.

Definition M (A : Type) : Type := PortState -> Completion A.

Definition ret {A} (a : A) : M A := fun s => Normal a s.

Definition bind {A B} (m : M A) (k : A -> M B) : M B :=
  fun s =>
    match m s with
    | Normal a s' => k a s'
    | Throw e s' => Throw e s'
    end.

Definition throw {A} (e : Value) : M A := fun s => Throw e s.

(** [try { m } catch (error) { h error }] *)
Definition try_catch {A} (m : M A) (h : Value -> M A) : M A :=
  fun s =>
    match m s with
    | Normal a s' => Normal a s'
    | Throw e s' => h e s'
    end.

(** [try { m } finally { f }] where [f] only writes fields. *)
Definition try_finally {A} (m : M A) (f : PortState -> PortState) : M A :=
  fun s =>
    match m s with
    | Normal a s' => Normal a (f s')
    | Throw e s' => Throw e (f s')
    end.

Definition gets {A} (f : PortState -> A) : M A := fun s => Normal (f s) s.

Definition modify (f : PortState -> PortState) : M unit :=
  fun s => Normal tt (f s).

Definition emit (e : Event) : M unit := modify (set_log (cons e)).

(** The fields after a computation, however it completed. *)
Definition final {A} (c : Completion A) : PortState :=
  match c with
  | Normal _ s => s
  | Throw _ s => s
  end.

Declare Scope port_scope.
Delimit Scope port_scope with port.
Notation "'let*' x := m 'in' k" := (bind m (fun x => k))
  (at level 10, x name, m at level 100, k at level 200) : port_scope.
Notation "m >> k" := (bind m (fun _ => k))
  (at level 100, k at level 200, right associativity) : port_scope.
Local Open Scope port_scope.

(** [array.map(f, this)] for a method [f] that reads its first argument
    only: the elements are mapped from left to right. *)
Fixpoint array_map {A B} (f : A -> M B) (l : list A) : M (list B) :=
  match l with
  | [] => ret []
  | x :: l' =>
      let* y := f x in
      let* ys := array_map f l' in
      ret (y :: ys)
  end.

(** [array.forEach(f)], likewise. *)
Fixpoint for_each {A} (f : A -> M unit) (l : list A) : M unit :=
  match l with
  | [] => ret tt
  | x :: l' => f x >> for_each f l'
  end.

(** ** What the class is given *)

(** [PortAdapter]: the value [send] returns, and whether [destroy] throws
    ([Some error]).  Its [send], and the reply function it may pass to
    [onData], are taken to return, as their documentation has it. *)
Record PortAdapter := {
  adapter_send : string -> Value -> list Value -> Value -> Value;
  adapter_destroy : option Value
}.

(** The host: the results of the successive calls of [getRandomId]; what
    a function of the application returns ([inl]) or throws ([inr]) on
    given [this] and arguments, without calling back into the Port while
    it runs; [filter.test(name)] of a regular expression, which is taken
    to keep no state between tests; the conversions of the language where
    they leave the primitive values; [new globalThis[name]] when that
    global is a function, returning an object ([inl]) or throwing
    ([inr]); the [stack] of a new error; the [TypeError] of the engine
    for a read on [null] or [undefined] and for a call of what is no
    function. *)
Record Host := {
  getRandomId : nat -> string;
  applyLocal : FunRef -> Value -> list Value -> Value + Value;
  regexp_test : nat -> string -> bool;
  js_ToString : Value -> string;
  js_ToNumber : Value -> Value;
  new_global : Value -> option (Value + Value);
  js_stack : string -> string -> string;
  js_TypeError : Value
}.

(** The character [34] for the messages that quote a name. *)
Definition dquote : string := String (Ascii.ascii_of_nat 34) EmptyString.

(** ** The methods of [_Port] *)
Section Port.
Context (adapter : PortAdapter) (host : Host).

(** [value + ''] and the other conversions to a string. *)
Definition toStr (v : Value) : string :=
  match v with
  | VStr s => s
  | VUndef => "undefined"
  | VNull => "null"
  | VBool true => "true"
  | VBool false => "false"
  | VNum n => pretty n
  | VNaN => "NaN"
  | _ => js_ToString host v
  end.

(** [+id] *)
Definition toNumber (v : Value) : Value :=
  match v with
  | VNum n => VNum n
  | VNaN | VUndef => VNaN
  | VNull => VNum 0
  | VBool b => VNum (if b then 1 else 0)
  | _ => js_ToNumber host v
  end.

(** [-id] *)
Definition negate (v : Value) : Value :=
  match toNumber v with
  | VNum n => VNum (- n)
  | w => w
  end.

(** [new cls(message)] for the error classes of the language. *)
Definition mkError (cls message : string) : Value :=
  VObj (Some cls)
    [("name", VStr cls); ("message", VStr message);
     ("stack", VStr (js_stack host cls message))].

(** [function reportError() { try { console.error(...arguments) } catch (_) { } }] *)
Definition reportError (args : list Value) : M unit :=
  emit (EvReportError args).

(** [this.port.send(name, id, args, options)]: the method is read off
    [this.port] before the arguments are evaluated. *)
Definition port_send (name : string) (id : Value) (args : M (list Value))
    (options : Value) : M Value :=
  let* present := gets port in
  if negb present then throw (js_TypeError host) else
  let* args := args in
  emit (EvSend name id args options) >>
  ret (adapter_send adapter name id args options).

(** [nextId() { return ++this.lastId; }] *)
Definition nextId : M Z :=
  fun s => Normal (lastId s + 1) (set_lastId (fun n => n + 1) s).

Definition callRandomId : M Value :=
  fun s =>
    Normal (VStr (getRandomId host (randomCalls s))) (set_randomCalls S s).

(** [typeof v === t1 || typeof v === t2 ? v : undefined] *)
Definition only_typeof (types : list string) (v : Value) : Value :=
  if bool_decide (typeof v ∈ types) then v else VUndef.

Definition mapValue (value : Value) : M Value :=
  if isObject value && hasProp "" value then
    ret (literal [("", VNum 0); ("raw", value)])
  else
    match value with
    | VFun callback =>
        let* known := gets (fun s => mget callback (cb2id s)) in
        let* cbId :=
          match known with
          | Some id => if truthy id then ret id else callRandomId
          | None => callRandomId
          end in
        modify (set_id2cb (mset cbId callback)) >>
        modify (set_cb2id (mset callback cbId)) >>
        ret (literal [("", VNum 1); ("cb", cbId)])
    | _ =>
        if isErrorLike value then
          ret (literal
            [("", VNum 2);
             ("name", VStr (toStr (getProp "name" value)));
             ("message", VStr (toStr (getProp "message" value)));
             ("stack", VStr (toStr (getProp "stack" value)));
             ("code", only_typeof ["number"; "string"] (getProp "code" value));
             ("status", only_typeof ["number"; "string"] (getProp "status" value));
             ("expose", only_typeof ["boolean"] (getProp "expose" value));
             ("fileName", only_typeof ["string"] (getProp "fileName" value));
             ("lineNumber", only_typeof ["number"] (getProp "lineNumber" value));
             ("columnNumber", only_typeof ["number"] (getProp "columnNumber" value))])
        else ret value
    end.

(** The arrow function of [unmapValue] is allocated: its closure keeps
    [cbId]. *)
Definition new_stub (cbId : Value) : M FunRef :=
  fun s =>
    Normal (FStub (length (closures s)))
           (set_closures (fun l => (l ++ [cbId])%list) s).

(** [delete value['']] *)
Definition delete_prop (key : string) (v : Value) : Value :=
  match v with
  | VObj c props => VObj c (mdelete key props)
  | _ => v
  end.

(** [Object.assign(target, source)] on two ordinary objects. *)
Definition object_assign (target source : Value) : Value :=
  match target, source with
  | VObj c tprops, VObj _ sprops =>
      VObj c (fold_left (fun acc kv => mset (fst kv) (snd kv) acc) sprops tprops)
  | _, _ => target
  end.

Definition unmapValue (value : Value) : M Value :=
  if negb (bool_decide (typeof value = "object"))
     || bool_decide (value = VNull) || negb (hasProp "" value)
  then ret value
  else
    match getProp "" value with
    | VNum 0 => ret (getProp "raw" value)
    | VNum 1 =>
        let cbId := getProp "cb" value in
        let* bound := gets (fun s => mget cbId (id2cb s)) in
        let* callback :=
          match bound with
          | Some f => ret f
          | None => new_stub cbId
          end in
        modify (set_id2cb (mset cbId callback)) >>
        modify (set_cb2id (mset callback cbId)) >>
        ret (VFun callback)
    | VNum 2 =>
        let value := delete_prop "" value in
        let* error :=
          match new_global host (getProp "name" value) with
          | Some (inl object) => ret object
          | Some (inr thrown) => throw thrown
          | None => ret (mkError "Error" "")
          end in
        ret (object_assign error value)
    | _ => throw (mkError "TypeError" "Can't unmap argument")
    end.

(** The body of the stub that [unmapValue] allocates for [cbId]. *)
Definition callStub (cbId : Value) (args : list Value) : M Value :=
  let* open := gets public in
  if negb open then
    throw (mkError "Error" "Remote callback connection is closed")
  else
    let* id := nextId in
    let* promise :=
      port_send "" (VNum 0)
        (let* mapped := array_map mapValue args in
         ret [VNum id; VNum 0; cbId; VArr mapped])
        VNull in
    if negb (bool_decide (promise = VUndef)) then ret promise else
    modify (set_requests (mset id (PRequest id))) >>
    ret (VPromise (PRequest id)).

(** [f.apply(thisArg, args)] *)
Definition apply (f : FunRef) (thisArg : Value) (args : list Value) : M Value :=
  match f with
  | FLocal _ _ =>
      emit (EvApply f thisArg args) >>
      match applyLocal host f thisArg args with
      | inl returned => ret returned
      | inr thrown => throw thrown
      end
  | FStub n =>
      let* cbId := gets (fun s => nth n (closures s) VUndef) in
      callStub cbId args
  end.

(** [isRequest()] *)
Definition isRequest : M bool :=
  let* flag := gets _isRequest in
  if flag =? -1 then ret false
  else if flag =? 1 then ret true
  else throw (mkError "Error"
    "Port.isRequest() may only be called while the port is in a synchronous handler").

(** [addHandler(name, handler, thisArg)].  Only a regular expression has
    a [test] method here, so every other name that is no non-empty
    string fails the probe [filter.test('X')]. *)
Definition addHandler (name handler thisArg : Value) : M unit :=
  let '(name, handler, thisArg) :=
    match name with
    | VFun f => (VStr (fun_name f), name, handler)
    | _ => (name, handler, thisArg)
    end in
  match handler with
  | VFun h =>
      match name with
      | VRegExp filter =>
          modify (set_wildcards (mset filter (h, thisArg)))
      | VStr n =>
          if negb (bool_decide (n = "")) then
            let* taken := gets (fun s => mhas n (handlers s)) in
            if taken then
              throw (mkError "Error"
                ("Duplicate message handler for " +:+ dquote +:+ n +:+ dquote))
            else modify (set_handlers (mset n (h, thisArg)))
          else
            throw (mkError "TypeError"
              "Handler names must be non-empty strings or RegExp wildcards")
      | _ =>
          throw (mkError "TypeError"
            "Handler names must be non-empty strings or RegExp wildcards")
      end
  | _ => throw (mkError "TypeError" "Message handlers must be functions")
  end.

(** [f && f.name] *)
Definition name_of_entry (f : Value) : Value :=
  if truthy f then
    match f with
    | VFun g => VStr (fun_name g)
    | _ => getProp "name" f
    end
  else f.

(** The two passes of [addHandlers] over [add]. *)
Definition check_entry (entry : Value * Value) : M unit :=
  match fst entry with
  | VStr name =>
      if bool_decide (name = "") then
        throw (mkError "TypeError" "Handler names must be non-empty strings")
      else
        let* taken := gets (fun s => mhas name (handlers s)) in
        if taken then
          throw (mkError "Error"
            ("Duplicate message handler for " +:+ dquote +:+ name +:+ dquote))
        else ret tt
  | _ => throw (mkError "TypeError" "Handler names must be non-empty strings")
  end.

Definition set_entry (prefix : string) (thisArg : Value)
    (entry : Value * Value) : M unit :=
  match entry with
  | (name, VFun handler) =>
      modify (set_handlers (mset (prefix +:+ toStr name) (handler, thisArg)))
  | _ => ret tt
  end.

(** [addHandlers(prefix, handlers, thisArg)] *)
Definition addHandlers (prefix handlers thisArg : Value) : M unit :=
  let '(prefix, handlers, thisArg) :=
    if bool_decide (typeof prefix = "object")
    then (VStr "", prefix, handlers)
    else (prefix, handlers, thisArg) in
  match prefix with
  | VStr prefix =>
      if negb (bool_decide (typeof handlers = "object")) then
        throw (mkError "TypeError"
          "'handlers' argument must be an object (or Array)")
      else
        let* entries :=
          match handlers with
          | VArr fs => ret (map (fun f => (name_of_entry f, f)) fs)
          | VObj _ props =>
              ret (map (fun k => (VStr k, getProp k handlers)) (map fst props))
          | VNull => throw (js_TypeError host)
          | _ => ret []
          end in
        let add :=
          List.filter
            (fun entry => bool_decide (typeof (snd entry) = "function"))
            entries in
        for_each check_entry add >>
        for_each (set_entry prefix thisArg) add
  | _ =>
      throw (mkError "TypeError"
        "Handler name prefixes must be strings (or omitted)")
  end.

(** [removeHandler(name)] and [hasHandler(name)]: the keys of
    [handlers] are strings and those of [wildcards] regular
    expressions. *)
Definition removeHandler (name : Value) : M unit :=
  match name with
  | VStr n => modify (set_handlers (mdelete n))
  | VRegExp r => modify (set_wildcards (mdelete r))
  | _ => ret tt
  end.

Definition hasHandler (name : Value) : M bool :=
  match name with
  | VStr n => gets (fun s => mhas n (handlers s))
  | VRegExp r => gets (fun s => mhas r (wildcards s))
  | _ => ret false
  end.

(** The head of [request], [post] and [afterEnded]: a first argument of
    type object is the options and the name is shifted off the rest. *)
Definition shift_options (argv : list Value) : Value * Value * list Value :=
  let name := hd VUndef argv in
  let args := tl argv in
  if bool_decide (typeof name = "object")
  then (name, hd VUndef args, tl args)
  else (VNull, name, args).

(** [request(name, ...args)] *)
Definition request (argv : list Value) : M Value :=
  let '(options, name, args) := shift_options argv in
  match name with
  | VStr name =>
      let* id := nextId in
      let* value :=
        port_send name (VNum id) (array_map mapValue args) options in
      if negb (bool_decide (value = VUndef)) then ret value else
      modify (set_requests (mset id (PRequest id))) >>
      ret (VPromise (PRequest id))
  | _ => throw (mkError "TypeError" "The request name must be a string")
  end.

(** [post(name, ...args)] *)
Definition post (argv : list Value) : M unit :=
  let '(options, name, args) := shift_options argv in
  match name with
  | VStr name =>
      port_send name (VNum 0) (array_map mapValue args) options >> ret tt
  | _ => throw (mkError "TypeError" "The request name must be a string")
  end.

(** [afterEnded(name, ...args)] *)
Definition afterEnded (argv : list Value) : M unit :=
  let '(options, name, args) := shift_options argv in
  match name with
  | VStr name =>
      port_send "" (VNum 0)
        (let* mapped := array_map mapValue args in
         ret [VNum 0; VNum 1; VStr name; VArr mapped])
        options >> ret tt
  | _ => throw (mkError "TypeError" "The request name must be a string")
  end.

(** [releaseCallback(callback, remote)]: [cb2id] has functions as keys
    only, so [get] of anything else is [undefined]. *)
Definition releaseCallback (callback : Value) (remote : bool) : M unit :=
  let* cbId :=
    gets (fun s =>
      match callback with
      | VFun f => default VUndef (mget f (cb2id s))
      | _ => VUndef
      end) in
  if negb (truthy cbId) then ret tt else
  modify (set_id2cb (mdelete cbId)) >>
  modify (set_cb2id
    (match callback with VFun f => mdelete f | _ => fun m => m end)) >>
  if negb remote
  then port_send "" (VNum 0) (ret [VNum 0; VNum 2; cbId]) VNull >> ret tt
  else ret tt.

(** [reply ? reply('', id, [this.mapValue(value)])
          : this.port.send('', id, [this.mapValue(value)])] *)
Definition respond (reply : option nat) (id value : Value) : M unit :=
  match reply with
  | Some r =>
      let* mapped := mapValue value in
      emit (EvReply r "" id [mapped])
  | None =>
      port_send "" id (let* mapped := mapValue value in ret [mapped]) VUndef
      >> ret tt
  end.

(** [onData], after [value] was computed: from [if (!isPromise(value))]
    to the end of the [try] block. *)
Definition after_call (id value : Value) (reply : option nat) : M bool :=
  if negb (isPromise value) then
    (if negb (is_zero id) then respond reply (toNumber id) value else ret tt)
    >> ret false
  else if is_zero id then
    emit (EvThen value KReportAsync) >> ret false
  else
    emit (EvThen value (KReplyAsync reply id)) >> ret true.

(** [onData], the [catch] block of a request. *)
Definition on_error (id : Value) (reply : option nat) (error : Value) : M bool :=
  (if truthy id then respond reply (negate id) error
   else reportError [VStr "Uncaught error in handler (post)"; error])
  >> ret false.

(** [array.map(this.unmapValue, this)]: only an array has a [map]
    method here, on everything else the call throws. *)
Definition map_unmap (array : Value) : M (list Value) :=
  match array with
  | VArr xs => array_map unmapValue xs
  | _ => throw (js_TypeError host)
  end.

Definition index_or_undefined (v : Value) (i : nat) : Value :=
  default VUndef (js_index v i).

(** [onData], the special request.  The variable [id] is assigned in
    the [try] block and read in the [catch] block, so the computation
    gives its value along with the completion. *)
Definition special_request (args : Value) (reply : option nat)
    : PortState -> Value * Completion bool :=
  fun s =>
    match js_index args 0 with
    | None => (VNum 0, Throw (js_TypeError host) s)
    | Some id =>
        (id,
         match index_or_undefined args 1 with
         | VNum 0 =>
             (let* callback :=
                gets (fun s => mget (index_or_undefined args 2) (id2cb s)) in
              match callback with
              | None =>
                  throw (mkError "Error" "Remote callback has been destroyed")
              | Some callback =>
                  let* cargs := map_unmap (index_or_undefined args 3) in
                  let* value := apply callback VNull cargs in
                  after_call id value reply
              end) s
         | VNum 1 =>
             (modify (set_endQueue (fun q =>
                (q ++ [(index_or_undefined args 2, index_or_undefined args 3)])%list))
              >> ret false) s
         | VNum 2 =>
             (modify (set_endQueue (fun q =>
                (q ++ [(index_or_undefined args 2, index_or_undefined args 3)])%list))
              >> ret false) s
         | _ => Throw (mkError "Error" "Bad request") s
         end)
    end.

(** The first wildcard, in insertion order, whose filter matches. *)
Definition find_wildcard (name : string)
    (ws : list (nat * (FunRef * Value))) : option (FunRef * Value) :=
  match List.find (fun w => regexp_test host (fst w) name) ws with
  | Some (_, entry) => Some entry
  | None => None
  end.

(** [onData], the request with a name. *)
Definition named_request (name : Value) (id : Z) (args altThis : Value)
    (reply : option nat) (optional : bool) : M bool :=
  let* args := map_unmap args in
  let* exact :=
    gets (fun s =>
      match name with
      | VStr n => mget n (handlers s)
      | _ => None
      end) in
  let* found :=
    match exact with
    | Some entry => ret (Some entry, args)
    | None =>
        let* ws := gets wildcards in
        ret (find_wildcard (toStr name) ws, name :: args)
    end in
  match found with
  | (None, _) =>
      if negb optional then
        throw (mkError "Error"
          ("No such handler " +:+ dquote +:+ toStr name +:+ dquote))
      else ret false
  | (Some (handler, thisArg), args) =>
      let* value :=
        try_finally
          (modify (set_isRequest (fun _ => if id =? 0 then -1 else 1)) >>
           apply handler
             (if bool_decide (thisArg = VUndef) then altThis else thisArg)
             args)
          (set_isRequest (fun _ => 0)) in
      after_call (VNum id) value reply
  end.

(** [onData], the reply. *)
Definition resolve_reply (id : Z) (args : Value) : M bool :=
  let threw := id <? 0 in
  let id := if threw then - id else id in
  let* request := gets (fun s => mget id (requests s)) in
  modify (set_requests (mdelete id)) >>
  match request with
  | None => throw (mkError "Error" "Bad or duplicate response id")
  | Some request =>
      let* payload :=
        match js_index args 0 with
        | Some payload => unmapValue payload
        | None => throw (js_TypeError host)
        end in
      emit (if threw then EvReject request payload
            else EvResolve request payload) >>
      ret false
  end.

(** [onData(name, id, args, altThis, reply, optional)] *)
Definition onData (name : Value) (id : Z) (args altThis : Value)
    (reply : option nat) (optional : bool) : M bool :=
  if truthy name || (id =? 0) then
    fun s =>
      let '(id', completion) :=
        if negb (truthy name) && (id =? 0)
        then special_request args reply s
        else (VNum id, named_request name id args altThis reply optional s) in
      match completion with
      | Normal result s' => Normal result s'
      | Throw error s' => on_error id' reply error s'
      end
  else
    try_catch (resolve_reply id args)
              (fun error => reportError [error] >> ret false).

(** [destroy], the first loop: [forEach] visits the entries the queue
    has when the loop starts. *)
Definition flush_endQueue : M unit :=
  let* queue := gets endQueue in
  for_each (fun entry =>
              onData (fst entry) 0 (snd entry) VUndef None false >> ret tt)
           queue.

Definition destroyed_error : Value :=
  mkError "Error" "The Port this request is waiting on was destroyed".

(** [destroy], the second loop. *)
Definition reject_pending : M unit :=
  let* pending := gets requests in
  for_each (fun entry => emit (EvReject (snd entry) destroyed_error)) pending.

(** [try { this.port.destroy(); } catch (error) { console.error(error); }] *)
Definition destroy_adapter : M unit :=
  try_catch
    (let* present := gets port in
     if negb present then throw (js_TypeError host) else
     emit EvAdapterDestroy >>
     match adapter_destroy adapter with
     | Some thrown => throw thrown
     | None => ret tt
     end)
    (fun error => emit (EvConsoleError error)).

(** [destroy(error)] *)
Definition destroy (error : Value) : M unit :=
  let* open := gets public in
  if negb open then ret tt else
  flush_endQueue >>
  reject_pending >>
  modify (set_requests (fun _ => [])) >>
  modify (set_handlers (fun _ => [])) >>
  modify (set_id2cb (fun _ => [])) >>
  emit (EvOnEnd (if bool_decide (typeof error = "object") then error else VNull)) >>
  modify (set_ended (fun _ => true)) >>
  destroy_adapter >>
  modify (set_public (fun _ => false)) >>
  modify (set_port (fun _ => false)).

(** ** The public class [Port] *)

(** [getPrivate(other)] for an object made by [new Port]. *)
Definition getPrivate : M unit :=
  let* open := gets public in
  if negb open then throw (mkError "Error" "Can't use disconnected Port")
  else ret tt.

Definition Port_addHandler (name handler thisArg : Value) : M unit :=
  getPrivate >> addHandler name handler thisArg.

Definition Port_addHandlers (prefix handlers thisArg : Value) : M unit :=
  getPrivate >> addHandlers prefix handlers thisArg.

Definition Port_removeHandler (name : Value) : M unit :=
  getPrivate >> removeHandler name.

Definition Port_hasHandler (name : Value) : M bool :=
  getPrivate >> hasHandler name.

Definition Port_request (options name args : Value) : M Value :=
  getPrivate >> request [options; name; args].

Definition Port_post (options name args : Value) : M unit :=
  getPrivate >> post [options; name; args].

Definition Port_afterEnded (options name args : Value) : M unit :=
  getPrivate >> afterEnded [options; name; args].

Definition Port_isRequest : M bool :=
  getPrivate >> isRequest.

Definition Port_releaseCallback (callback : Value) : M unit :=
  getPrivate >> releaseCallback callback false.

(** [destroy(reason) { try { self && self.destroy(reason); }
                       catch (error) { reportError(error); } }] *)
Definition Port_destroy (reason : Value) : M unit :=
  try_catch (destroy reason) (fun error => reportError [error]).
End Port.

(** ** The older build [index.js]

    Its [_Port] differs from the one above in [releaseCallback], which
    takes no [remote] argument and sends nothing, and in the special
    request of [onData], which knows the tags [0] and [1] only. *)
Module IndexJs.
Section Port.
Context (adapter : PortAdapter) (host : Host).

(** [releaseCallback(cb)] *)
Definition releaseCallback (cb : Value) : M unit :=
  let* id :=
    gets (fun s =>
      match cb with
      | VFun f => default VUndef (mget f (cb2id s))
      | _ => VUndef
      end) in
  if negb (truthy id) then ret tt else
  modify (set_id2cb (mdelete id)) >>
  modify (set_cb2id (match cb with VFun f => mdelete f | _ => fun m => m end)).

(** [onData], the special request. *)
Definition special_request (args : Value) (reply : option nat)
    : PortState -> Value * Completion bool :=
  fun s =>
    match js_index args 0 with
    | None => (VNum 0, Throw (js_TypeError host) s)
    | Some id =>
        (id,
         match index_or_undefined args 1 with
         | VNum 0 =>
             (let* callback :=
                gets (fun s => mget (index_or_undefined args 2) (id2cb s)) in
              match callback with
              | None =>
                  throw (mkError host "Error" "Remote callback has been destroyed")
              | Some callback =>
                  let* cargs := map_unmap host (index_or_undefined args 3) in
                  let* value := apply adapter host callback VNull cargs in
                  after_call adapter host id value reply
              end) s
         | VNum 1 =>
             (modify (set_endQueue (fun q =>
                (q ++ [(index_or_undefined args 2, index_or_undefined args 3)])%list))
              >> ret false) s
         | _ => Throw (mkError host "Error" "Bad request") s
         end)
    end.

(** [onData(name, id, args, altThis, reply, optional)] *)
Definition onData (name : Value) (id : Z) (args altThis : Value)
    (reply : option nat) (optional : bool) : M bool :=
  if truthy name || (id =? 0) then
    fun s =>
      let '(id', completion) :=
        if negb (truthy name) && (id =? 0)
        then special_request args reply s
        else (VNum id,
              named_request adapter host name id args altThis reply optional s) in
      match completion with
      | Normal result s' => Normal result s'
      | Throw error s' => on_error adapter host id' reply error s'
      end
  else
    try_catch (resolve_reply host id args)
              (fun error => reportError [error] >> ret false).
End Port.
End IndexJs.

(** [new _Port(self, port, Adapter)] *)
Definition new_Port : PortState :=
  {| port := true; requests := []; handlers := []; wildcards := [];
     lastId := 1; cb2id := []; id2cb := []; endQueue := [];
     ended := false; _isRequest := 0; public := true;
     randomCalls := 0; closures := []; log := [] |}.

(** ** The life of a Port

    What happens to a Port is a sequence of calls: of the public methods
    by the application, of [onData] and [onEnd] by the adapter, and of
    stubs the application was given.  A thrown error goes to the caller,
    the fields stay as the method left them. *)
Inductive Op :=
| CallAddHandler (name handler thisArg : Value)
| CallAddHandlers (prefix handlers thisArg : Value)
| CallRemoveHandler (name : Value)
| CallHasHandler (name : Value)
| CallRequest (options name args : Value)
| CallPost (options name args : Value)
| CallAfterEnded (options name args : Value)
| CallIsRequest
| CallReleaseCallback (callback : Value)
| CallDestroy (reason : Value)
| CallStub (serial : nat) (args : list Value)
| AdapterData (name : Value) (id : Z) (args altThis : Value)
    (reply : option nat) (optional : bool)
| AdapterEnd (reason : Value).

Section Life.
Context (adapter : PortAdapter) (host : Host).

Definition perform (op : Op) : M unit :=
  match op with
  | CallAddHandler name handler thisArg =>
      Port_addHandler host name handler thisArg
  | CallAddHandlers prefix handlers thisArg =>
      Port_addHandlers host prefix handlers thisArg
  | CallRemoveHandler name => Port_removeHandler host name
  | CallHasHandler name => Port_hasHandler host name >> ret tt
  | CallRequest options name args =>
      Port_request adapter host options name args >> ret tt
  | CallPost options name args => Port_post adapter host options name args
  | CallAfterEnded options name args =>
      Port_afterEnded adapter host options name args
  | CallIsRequest => Port_isRequest host >> ret tt
  | CallReleaseCallback callback =>
      Port_releaseCallback adapter host callback
  | CallDestroy reason => Port_destroy adapter host reason
  | CallStub serial args =>
      let* closure := gets (fun s => nth_error (closures s) serial) in
      match closure with
      | Some cbId => callStub adapter host cbId args >> ret tt
      | None => ret tt
      end
  | AdapterData name id args altThis reply optional =>
      onData adapter host name id args altThis reply optional >> ret tt
  | AdapterEnd reason => destroy adapter host reason
  end.

Definition step (s : PortState) (op : Op) : PortState :=
  final (perform op s).

Definition run (ops : list Op) (s : PortState) : PortState :=
  fold_left step ops s.

(** The fields of a Port some time after [new Port]. *)
Definition reachable (s : PortState) : Prop :=
  exists ops, s = run ops new_Port.
End Life.

(** ** Values crossing the Port

    Between two encodings of a function the Port decodes replies, and
    between two decodings of an id it encodes arguments.  A crossing is
    one value going out through [mapValue] or coming in through
    [unmapValue]; a thrown decoding error ends that message only, the
    next crossing starts from the fields it left. *)
Inductive Crossing :=
| Outbound (v : Value)
| Inbound (w : Value).

Section Crossings.
Context (host : Host).

Definition cross (c : Crossing) : M Value :=
  match c with
  | Outbound v => mapValue host v
  | Inbound w => unmapValue host w
  end.

Fixpoint crossings (cs : list Crossing) (s : PortState)
    : list (Completion Value) :=
  match cs with
  | [] => []
  | c :: cs' => cross c s :: crossings cs' (final (cross c s))
  end.
End Crossings.

(** ** A concrete adapter, host and functions, for the examples *)

(** An adapter that transmits and returns [undefined], as the four
    adapters of the module do. *)
Definition silent_adapter : PortAdapter :=
  {| adapter_send := fun _ _ _ _ => VUndef; adapter_destroy := None |}.

Definition plain_host : Host :=
  {| getRandomId := fun n => "cb" +:+ pretty n;
     applyLocal := fun _ _ _ => inl VUndef;
     regexp_test := fun _ _ => false;
     js_ToString := fun _ => "[object Object]";
     js_ToNumber := fun _ => VNaN;
     new_global := fun _ => None;
     js_stack := fun _ _ => "";
     js_TypeError :=
       VObj (Some "TypeError") [("name", VStr "TypeError"); ("message", VStr "")] |}.

Definition on_event : FunRef := FLocal 0 "onEvent".
Definition get_b : FunRef := FLocal 1 "b".
Definition other_b : FunRef := FLocal 2 "b".

(** [{ '': 1, cb: cbId }], what [mapValue] makes of a function. *)
Definition callback_ref (cbId : Value) : Value :=
  literal [("", VNum 1); ("cb", cbId)].

(** [{ '': 0, raw: value }] *)
Definition wrapped (value : Value) : Value :=
  literal [("", VNum 0); ("raw", value)].

(** A Port on which the function [on_event] was sent once. *)
Definition port_with_callback : PortState :=
  final (mapValue plain_host (VFun on_event) new_Port).

(** A Port with an exact handler for the name [a.b]. *)
Definition port_with_handler : PortState :=
  final (addHandler plain_host (VStr "a.b") (VFun get_b) VUndef new_Port).

(** A Port with three requests pending. *)
Definition port_with_requests : PortState :=
  run silent_adapter plain_host
    [CallRequest (VStr "a") VUndef VUndef;
     CallRequest (VStr "b") VUndef VUndef;
     CallRequest (VStr "c") VUndef VUndef]
    new_Port.

(** * Properties *)

(** ** Value Mapper *)
Section ValueMapper.
Context (host : Host).


Lemma unmapValue_plain (v : Value) (s : PortState) :
  hasProp "" v = false -> unmapValue host v s = Normal v s.
Proof.
  intros Hno. unfold unmapValue. rewrite Hno. simpl.
  rewrite orb_true_r. reflexivity.
Qed.

(** C8: a value that is neither a function nor error-like goes through
    [mapValue] and back through [unmapValue] unchanged, and neither
    method touches the Port: a value without the key [''] is sent as it
    is, an object with that key is sent as [{ '': 0, raw: value }] and
    unwrapped again. *)
Theorem mapValue_unmapValue_roundtrip (s : PortState) (v : Value) :
  (forall f, v <> VFun f) ->
  isErrorLike v = false ->
  let wire := if isObject v && hasProp "" v then wrapped v else v in
  mapValue host v s = Normal wire s /\ unmapValue host wire s = Normal v s.
Proof.
  intros Hfun Herr. unfold mapValue.
  destruct (isObject v && hasProp "" v) eqn:Hkey; simpl.
  - split; reflexivity.
  - rewrite Herr.
    assert (hasProp "" v = false) as Hno.
    { destruct v; simpl in *; try reflexivity. exact Hkey. }
    split; [| apply unmapValue_plain, Hno].
    destruct v; try reflexivity. exfalso. eapply Hfun. reflexivity.
Qed.
End ValueMapper.

Lemma mapValue_unmapValue_roundtrip_witness :
  let v := literal [("", VStr "mine"); ("n", VNum 3)] in
  mapValue plain_host v new_Port = Normal (wrapped v) new_Port /\
  unmapValue plain_host (wrapped v) new_Port = Normal v new_Port.
Proof.
  apply (mapValue_unmapValue_roundtrip plain_host new_Port
           (literal [("", VStr "mine"); ("n", VNum 3)])).
  - intros f. discriminate.
  - reflexivity.
Defined.

(** ** Callback release, requests without a name, batch registration *)
Section Methods.
Context (adapter : PortAdapter) (host : Host).

(** The argument has no entry in [cb2id]: it is no function, or a
    function that was never mapped on this Port or was released. *)
Definition unbound (callback : Value) (s : PortState) : Prop :=
  match callback with
  | VFun f => mget f (cb2id s) = None
  | _ => True
  end.

(** C10: [releaseCallback] of a value without a callback binding
    returns normally and leaves every field as it was: both directions
    of the registry are unchanged and nothing is sent (the log is the
    same).  This holds for the private method with either value of
    [remote], for the public method on a Port that is in use, and for
    the method of the older build. *)
Theorem releaseCallback_unbound_noop (callback : Value) (s : PortState) :
  unbound callback s ->
  (forall remote,
     releaseCallback adapter host callback remote s = Normal tt s) /\
  (public s = true ->
     Port_releaseCallback adapter host callback s = Normal tt s) /\
  IndexJs.releaseCallback callback s = Normal tt s.
Proof.
  intros Hun.
  assert (forall remote,
            releaseCallback adapter host callback remote s = Normal tt s) as H.
  { intros remote. unfold releaseCallback, bind, gets.
    destruct callback; try reflexivity.
    simpl in Hun. rewrite Hun. reflexivity. }
  split; [exact H|]. split.
  - intros Hopen. unfold Port_releaseCallback, getPrivate, bind, gets.
    rewrite Hopen. simpl. apply H.
  - unfold IndexJs.releaseCallback, bind, gets.
    destruct callback; try reflexivity.
    simpl in Hun. rewrite Hun. reflexivity.
Qed.

(** The name the request is made under: the first argument, or the
    second one when the first has type object. *)
Definition request_name (argv : list Value) : Value :=
  if bool_decide (typeof (hd VUndef argv) = "object")
  then hd VUndef (tl argv)
  else hd VUndef argv.

(** C2, amended: when the name of the request is not a string,
    [request] throws the TypeError and the Port is as before: no id is
    taken, nothing is handed to the adapter and no request is filed. *)
Theorem request_name_not_string (argv : list Value) (s : PortState) :
  (forall n, request_name argv <> VStr n) ->
  request adapter host argv s =
    Throw (mkError host "TypeError" "The request name must be a string") s.
Proof.
  unfold request_name, request, shift_options. intros Hname.
  destruct (bool_decide (typeof (hd VUndef argv) = "object"));
    match goal with
    | H : forall n, ?v <> VStr n |- _ =>
        destruct v eqn:E; try reflexivity; exfalso; eapply H; reflexivity
    end.
Qed.

(** C1: the special request with tag [2] for a bound callback id is
    answered with [false] and nothing is sent, but the binding is not
    removed: the pair [(args[2], args[3])] is put on the end queue, as
    for tag [1], and [id2cb] and [cb2id] are as before. *)
Theorem onData_release_keeps_binding
    (cbId first altThis : Value) (reply : option nat) (optional : bool)
    (s : PortState) :
  onData adapter host (VStr "") 0 (VArr [first; VNum 2; cbId])
         altThis reply optional s
  = Normal false (set_endQueue (fun q => (q ++ [(cbId, VUndef)])%list) s).
Proof. reflexivity. Qed.
(** The first pass of [addHandlers] writes no field, and the second pass
    does not throw: when [addHandlers] throws, no entry of the batch was
    registered. *)
Lemma check_entries_pure (add : list (Value * Value)) (s : PortState) :
  final (for_each (check_entry host) add s) = s.
Proof.
  induction add as [|entry add IH]; simpl; [reflexivity|].
  unfold bind, check_entry at 1.
  destruct (fst entry); try reflexivity.
  destruct (bool_decide (s0 = "")); [reflexivity|].
  unfold bind, gets. destruct (mhas s0 (handlers s)); [reflexivity|].
  exact IH.
Qed.

Lemma set_entries_normal (prefix : string) (thisArg : Value)
    (add : list (Value * Value)) (s : PortState) :
  exists s', for_each (set_entry host prefix thisArg) add s = Normal tt s'.
Proof.
  revert s. induction add as [|[name handler] add IH]; intros s; simpl.
  - eexists. reflexivity.
  - unfold bind, set_entry at 1.
    destruct handler; apply IH.
Qed.

Lemma addHandlers_all_or_nothing
    (prefix handlers thisArg error : Value) (s s' : PortState) :
  addHandlers host prefix handlers thisArg s = Throw error s' -> s' = s.
Proof.
  unfold addHandlers.
  set (shifted := if bool_decide (typeof prefix = "object")
                  then (VStr "", prefix, handlers)
                  else (prefix, handlers, thisArg)).
  destruct shifted as [[prefix' handlers'] thisArg'].
  destruct prefix'; try (intros Hthrow; cbv [throw] in Hthrow; congruence).
  destruct (negb (bool_decide (typeof handlers' = "object")));
    [intros Hthrow; cbv [throw] in Hthrow; congruence|].
  unfold bind at 1.
  assert (forall entries,
            (for_each (check_entry host)
               (List.filter
                  (fun entry => bool_decide (typeof (snd entry) = "function"))
                  entries) >>
             for_each (set_entry host s0 thisArg')
               (List.filter
                  (fun entry => bool_decide (typeof (snd entry) = "function"))
                  entries)) s = Throw error s' -> s' = s) as Hpasses.
  { intros entries. unfold bind.
    pose proof (check_entries_pure
                  (List.filter
                     (fun entry => bool_decide (typeof (snd entry) = "function"))
                     entries) s) as Hpure.
    destruct (for_each (check_entry host) _ s) as [[] s1|e s1]; simpl in Hpure.
    - subst s1.
      destruct (set_entries_normal s0 thisArg'
                  (List.filter
                     (fun entry => bool_decide (typeof (snd entry) = "function"))
                     entries) s) as (s2 & ->).
      discriminate.
    - intros Hthrow. cbv [throw] in Hthrow. congruence. }
  destruct handlers'; cbv [ret throw];
    first [apply Hpasses | intros Hthrow; congruence].
Qed.
End Methods.

Lemma releaseCallback_unbound_noop_witness :
  (forall remote,
     releaseCallback silent_adapter plain_host (VFun get_b) remote
       port_with_callback = Normal tt port_with_callback) /\
  (public port_with_callback = true ->
     Port_releaseCallback silent_adapter plain_host (VFun get_b)
       port_with_callback = Normal tt port_with_callback) /\
  IndexJs.releaseCallback (VFun get_b) port_with_callback
    = Normal tt port_with_callback.
Proof.
  apply (releaseCallback_unbound_noop silent_adapter plain_host
           (VFun get_b) port_with_callback).
  reflexivity.
Defined.

Lemma request_name_not_string_witness :
  request silent_adapter plain_host [VNum 7; VStr "late"] new_Port =
    Throw (mkError plain_host "TypeError" "The request name must be a string")
          new_Port.
Proof.
  apply (request_name_not_string silent_adapter plain_host
           [VNum 7; VStr "late"] new_Port).
  intros n. discriminate.
Defined.

(** C2 as stated fails for the empty string: [request('')] throws
    nothing, takes the id [2], hands the message to the adapter and files
    the request. *)
Lemma request_empty_name_is_sent :
  exists s,
    request silent_adapter plain_host [VStr ""] new_Port
      = Normal (VPromise (PRequest 2)) s /\
    log s = [EvSend "" (VNum 2) [] VNull] /\
    requests s = [(2, PRequest 2)].
Proof. eexists. split; [vm_compute; reflexivity|]. split; reflexivity. Qed.

(** C1 at a bound id: [on_event] was sent under the id [cb0]; after the
    peer's release message the id still resolves to it. *)
Example onData_release_example :
  mget (VStr "cb0") (id2cb port_with_callback) = Some on_event /\
  exists s,
    onData silent_adapter plain_host (VStr "") 0
      (VArr [VNum 0; VNum 2; VStr "cb0"]) VUndef None false port_with_callback
      = Normal false s /\
    mget (VStr "cb0") (id2cb s) = Some on_event /\
    mget on_event (cb2id s) = Some (VStr "cb0") /\
    endQueue s = [(VStr "cb0", VUndef)] /\
    log s = log port_with_callback.
Proof.
  split; [vm_compute; reflexivity|]. eexists.
  split; [vm_compute; reflexivity|]. repeat split.
Qed.

(** The same message in the older build: the tag [2] is unknown, the
    error [Bad request] is reported, and the binding stays as well. *)
Example indexjs_release_is_bad_request :
  IndexJs.onData silent_adapter plain_host (VStr "") 0
    (VArr [VNum 0; VNum 2; VStr "cb0"]) VUndef None false port_with_callback
  = Normal false
      (set_log (cons (EvReportError
                        [VStr "Uncaught error in handler (post)";
                         mkError plain_host "Error" "Bad request"]))
               port_with_callback).
Proof. vm_compute. reflexivity. Qed.

(** C3: with a handler registered for [a.b], the batch [{ b: other_b }]
    under the prefix [a.] is checked against the name [b] only; the call
    returns normally and replaces the handler of [a.b]. *)
Example addHandlers_prefixed_duplicate :
  mget "a.b" (handlers port_with_handler) = Some (get_b, VUndef) /\
  exists s,
    addHandlers plain_host (VStr "a.") (literal [("b", VFun other_b)]) VUndef
      port_with_handler = Normal tt s /\
    handlers s = [("a.b", (other_b, VUndef))].
Proof. split; [reflexivity|]. eexists. split; vm_compute; reflexivity. Qed.

(** ** What a computation leaves alone

    A relation between the fields before and after is kept by a
    computation when it holds however the computation completes.  For a
    reflexive and transitive relation this follows the structure of the
    computation. *)
Section Preserve.
Context (R : PortState -> PortState -> Prop) `{!PreOrder R}.

Definition preserves {A} (m : M A) : Prop :=
  forall s, R s (final (m s)).

Lemma preserves_ret {A} (a : A) : preserves (ret a).
Proof. intros s. simpl. reflexivity. Qed.

Lemma preserves_throw {A} (e : Value) : preserves (@throw A e).
Proof. intros s. simpl. reflexivity. Qed.

Lemma preserves_gets {A} (f : PortState -> A) : preserves (gets f).
Proof. intros s. simpl. reflexivity. Qed.

Lemma preserves_modify (f : PortState -> PortState) :
  (forall s, R s (f s)) -> preserves (modify f).
Proof. intros Hf s. simpl. apply Hf. Qed.

Lemma preserves_bind {A B} (m : M A) (k : A -> M B) :
  preserves m -> (forall a, preserves (k a)) -> preserves (bind m k).
Proof.
  intros Hm Hk s. unfold bind. specialize (Hm s).
  destruct (m s) as [a s1|e s1]; simpl in *; [|exact Hm].
  etransitivity; [exact Hm | apply Hk].
Qed.

Lemma preserves_try_catch {A} (m : M A) (h : Value -> M A) :
  preserves m -> (forall e, preserves (h e)) -> preserves (try_catch m h).
Proof.
  intros Hm Hh s. unfold try_catch. specialize (Hm s).
  destruct (m s) as [a s1|e s1]; simpl in *; [exact Hm|].
  etransitivity; [exact Hm | apply Hh].
Qed.

Lemma preserves_try_finally {A} (m : M A) (f : PortState -> PortState) :
  preserves m -> (forall s, R s (f s)) -> preserves (try_finally m f).
Proof.
  intros Hm Hf s. unfold try_finally. specialize (Hm s).
  destruct (m s) as [a s1|e s1]; simpl in *;
    (etransitivity; [exact Hm | apply Hf]).
Qed.

Lemma preserves_array_map {A B} (f : A -> M B) (l : list A) :
  (forall x, preserves (f x)) -> preserves (array_map f l).
Proof.
  intros Hf. induction l as [|x l IH]; simpl.
  - apply preserves_ret.
  - apply preserves_bind; [apply Hf|]. intros y.
    apply preserves_bind; [exact IH|]. intros ys. apply preserves_ret.
Qed.

Lemma preserves_for_each {A} (f : A -> M unit) (l : list A) :
  (forall x, preserves (f x)) -> preserves (for_each f l).
Proof.
  intros Hf. induction l as [|x l IH]; simpl.
  - apply preserves_ret.
  - apply preserves_bind; [apply Hf|]. intros _. exact IH.
Qed.
End Preserve.

Lemma preserves_weaken (R R' : PortState -> PortState -> Prop) {A} (m : M A) :
  (forall s s', R s s' -> R' s s') -> preserves R m -> preserves R' m.
Proof. intros HR Hm s. apply HR, Hm. Qed.

(** The calls of the adapter's [destroy] so far. *)
Definition adapter_destroys (s : PortState) : nat :=
  length (List.filter (fun e => bool_decide (e = EvAdapterDestroy)) (log s)).

(** [quiet]: only the callback registry moved (the two maps, and the
    counters behind random ids and stubs). *)
Record quiet (s s' : PortState) : Prop := {
  quiet_port : port s' = port s;
  quiet_requests : requests s' = requests s;
  quiet_handlers : handlers s' = handlers s;
  quiet_wildcards : wildcards s' = wildcards s;
  quiet_lastId : lastId s' = lastId s;
  quiet_endQueue : endQueue s' = endQueue s;
  quiet_ended : ended s' = ended s;
  quiet_isRequest : _isRequest s' = _isRequest s;
  quiet_public : public s' = public s;
  quiet_log : log s' = log s
}.

(** [steady]: the Port is as open as before, the adapter was not
    destroyed, ids were only taken, every request filed under an id
    taken before is still filed, and what is filed now was filed before
    or has an id taken since. *)
Record steady (s s' : PortState) : Prop := {
  steady_port : port s' = port s;
  steady_public : public s' = public s;
  steady_destroys : adapter_destroys s' = adapter_destroys s;
  steady_lastId : lastId s <= lastId s';
  steady_kept : forall id p,
    id <= lastId s -> mget id (requests s) = Some p ->
    mget id (requests s') = Some p;
  steady_new : forall id p,
    mget id (requests s') = Some p ->
    mget id (requests s) = Some p \/ lastId s < id <= lastId s'
}.

(** [calm]: as [steady], but requests may have been settled. *)
Record calm (s s' : PortState) : Prop := {
  calm_port : port s' = port s;
  calm_public : public s' = public s;
  calm_destroys : adapter_destroys s' = adapter_destroys s;
  calm_lastId : lastId s <= lastId s';
  calm_new : forall id p,
    mget id (requests s') = Some p ->
    mget id (requests s) = Some p \/ lastId s < id <= lastId s'
}.

#[global] Instance quiet_preorder : PreOrder quiet.
Proof.
  split.
  - intros s. split; reflexivity.
  - intros s1 s2 s3 [] []. split; congruence.
Qed.

#[global] Instance steady_preorder : PreOrder steady.
Proof.
  split.
  - intros s. split; try reflexivity; auto.
  - intros s1 s2 s3 H12 H23. destruct H12, H23.
    split; try congruence; try lia.
    + intros id p Hid Hget. apply steady_kept1; [lia|]. auto.
    + intros id p Hget. apply steady_new1 in Hget as [Hget|Hrange]; [|right; lia].
      apply steady_new0 in Hget as [Hget|Hrange]; [left; exact Hget | right; lia].
Qed.

#[global] Instance calm_preorder : PreOrder calm.
Proof.
  split.
  - intros s. split; try reflexivity; auto.
  - intros s1 s2 s3 H12 H23. destruct H12, H23.
    split; try congruence; try lia.
    intros id p Hget. apply calm_new1 in Hget as [Hget|Hrange]; [|right; lia].
    apply calm_new0 in Hget as [Hget|Hrange]; [left; exact Hget | right; lia].
Qed.

Lemma quiet_steady (s s' : PortState) : quiet s s' -> steady s s'.
Proof.
  intros []. split; try congruence.
  - unfold adapter_destroys. congruence.
  - lia.
  - intros id p Hget. left. congruence.
Qed.

Lemma steady_calm (s s' : PortState) : steady s s' -> calm s s'.
Proof. intros []. split; assumption. Qed.

Create HintDb frames.

(** Splits a goal [preserves R m] along the structure of [m]. *)
Ltac frame_step :=
  lazymatch goal with
  | |- preserves ?R (ret _) => exact (preserves_ret R _)
  | |- preserves ?R (throw _) => exact (preserves_throw R _)
  | |- preserves ?R (gets _) => exact (preserves_gets R _)
  | |- preserves ?R (bind _ _) => apply (preserves_bind R); [| intros ?]
  | |- preserves ?R (try_catch _ _) => apply (preserves_try_catch R); [| intros ?]
  | |- preserves ?R (array_map _ _) => apply (preserves_array_map R); intros ?
  | |- preserves ?R (for_each _ _) => apply (preserves_for_each R); intros ?
  | |- preserves _ (if ?b then _ else _) => destruct b
  | |- preserves _ (match ?x with _ => _ end) => destruct x
  | |- _ => solve [auto with frames]
  end.

Ltac frame := repeat frame_step.

Section Frames.
Context (adapter : PortAdapter) (host : Host).

Lemma quiet_callRandomId : preserves quiet (callRandomId host).
Proof. intros s. split; reflexivity. Qed.

Lemma quiet_new_stub (cbId : Value) : preserves quiet (new_stub cbId).
Proof. intros s. split; reflexivity. Qed.

Lemma quiet_set_id2cb f : preserves quiet (modify (set_id2cb f)).
Proof. intros s. split; reflexivity. Qed.

Lemma quiet_set_cb2id f : preserves quiet (modify (set_cb2id f)).
Proof. intros s. split; reflexivity. Qed.

Hint Resolve quiet_callRandomId quiet_new_stub quiet_set_id2cb
  quiet_set_cb2id : frames.

Lemma quiet_mapValue (v : Value) : preserves quiet (mapValue host v).
Proof. unfold mapValue. frame. Qed.

Lemma quiet_unmapValue (v : Value) : preserves quiet (unmapValue host v).
Proof. unfold unmapValue. frame. Qed.

Lemma steady_mapValue (v : Value) : preserves steady (mapValue host v).
Proof. eapply preserves_weaken; [apply quiet_steady | apply quiet_mapValue]. Qed.

Lemma steady_unmapValue (v : Value) : preserves steady (unmapValue host v).
Proof. eapply preserves_weaken; [apply quiet_steady | apply quiet_unmapValue]. Qed.

Lemma steady_emit (e : Event) :
  e <> EvAdapterDestroy -> preserves steady (emit e).
Proof.
  intros He s. split; try reflexivity; simpl; auto.
  unfold adapter_destroys. simpl.
  rewrite bool_decide_eq_false_2 by exact He. reflexivity.
Qed.

Lemma steady_set_registry_or_queue (f : PortState -> PortState) :
  (forall s, port (f s) = port s) ->
  (forall s, public (f s) = public s) ->
  (forall s, log (f s) = log s) ->
  (forall s, lastId (f s) = lastId s) ->
  (forall s, requests (f s) = requests s) ->
  preserves steady (modify f).
Proof.
  intros Hport Hpublic Hlog Hid Hreq s. simpl.
  split; rewrite ?Hport, ?Hpublic, ?Hid, ?Hreq; try reflexivity; auto.
  unfold adapter_destroys. rewrite Hlog. reflexivity.
Qed.

Lemma steady_nextId : preserves steady nextId.
Proof.
  intros s. split; try reflexivity; simpl; auto. lia.
Qed.

Lemma steady_reportError (args : list Value) :
  preserves steady (reportError args).
Proof. apply steady_emit. discriminate. Qed.

Hint Resolve steady_mapValue steady_unmapValue steady_nextId
  steady_reportError : frames.

Lemma steady_port_send name id (args : M (list Value)) options :
  preserves steady args ->
  preserves steady (port_send adapter host name id args options).
Proof.
  intros Hargs. unfold port_send. frame. apply steady_emit. discriminate.
Qed.

(** A request filed under the id that [nextId] gave. *)
Lemma steady_file_request (k : Z -> M Value) :
  (forall id, preserves steady (k id)) ->
  preserves steady
    (let* id := nextId in
     let* value := k id in
     if negb (bool_decide (value = VUndef)) then ret value else
     modify (set_requests (mset id (PRequest id))) >>
     ret (VPromise (PRequest id))).
Proof.
  intros Hk s. unfold bind at 1. simpl.
  unfold bind at 1.
  pose proof (Hk (lastId s + 1) (set_lastId (fun n => n + 1) s)) as Hstep.
  destruct (k (lastId s + 1) (set_lastId (fun n => n + 1) s)) as [value s1|e s1];
    simpl in Hstep.
  - assert (steady s s1) as Hs.
    { etransitivity; [apply steady_nextId | exact Hstep]. }
    destruct (negb (bool_decide (value = VUndef))); simpl; [exact Hs|].
    destruct Hs. destruct Hstep. simpl in *.
    split; simpl; try assumption.
    + intros id p Hid Hget.
      rewrite mget_mset_ne by lia. auto.
    + intros id p Hget.
      destruct (decide (id = lastId s + 1)) as [->|Hne].
      * right. lia.
      * rewrite mget_mset_ne in Hget by congruence. auto.
  - simpl. etransitivity; [apply steady_nextId | exact Hstep].
Qed.

Lemma steady_callStub (cbId : Value) (args : list Value) :
  preserves steady (callStub adapter host cbId args).
Proof.
  unfold callStub. apply (preserves_bind steady); [apply (preserves_gets steady)|].
  intros open. destruct (negb open); [apply (preserves_throw steady)|].
  apply steady_file_request. intros id.
  apply steady_port_send. frame.
Qed.

Lemma steady_apply (f : FunRef) (thisArg : Value) (args : list Value) :
  preserves steady (apply adapter host f thisArg args).
Proof.
  unfold apply. destruct f.
  - apply (preserves_bind steady); [apply steady_emit; discriminate|]. intros _. frame.
  - apply (preserves_bind steady); [apply (preserves_gets steady)|]. intros cbId.
    apply steady_callStub.
Qed.

Lemma steady_respond (reply : option nat) (id value : Value) :
  preserves steady (respond adapter host reply id value).
Proof.
  unfold respond. destruct reply.
  - frame. apply steady_emit. discriminate.
  - apply (preserves_bind steady); [|intros ?; apply (preserves_ret steady)].
    apply steady_port_send. frame.
Qed.

Hint Resolve steady_apply steady_respond : frames.

Lemma steady_after_call (id value : Value) (reply : option nat) :
  preserves steady (after_call adapter host id value reply).
Proof. unfold after_call. frame; apply steady_emit; discriminate. Qed.

Lemma steady_on_error (id : Value) (reply : option nat) (error : Value) :
  preserves steady (on_error adapter host id reply error).
Proof. unfold on_error. frame. Qed.

Lemma steady_map_unmap (array : Value) :
  preserves steady (map_unmap host array).
Proof. unfold map_unmap. frame. Qed.

Hint Resolve steady_after_call steady_on_error steady_map_unmap : frames.

Lemma steady_push_endQueue (entry : Value * Value) :
  preserves steady
    (modify (set_endQueue (fun q => (q ++ [entry])%list)) >> ret false).
Proof.
  apply (preserves_bind steady); [|intros ?; apply (preserves_ret steady)].
  apply steady_set_registry_or_queue; reflexivity.
Qed.

Lemma steady_special_request (args : Value) (reply : option nat) (s : PortState) :
  steady s (final (snd (special_request adapter host args reply s))).
Proof.
  unfold special_request.
  destruct (js_index args 0) as [id|]; simpl; [|reflexivity].
  destruct (index_or_undefined args 1) as [| | |n| | | | | | |]; try reflexivity.
  destruct n as [|tag|tag]; try reflexivity.
  - revert s. change (preserves steady
      (let* callback :=
         gets (fun s => mget (index_or_undefined args 2) (id2cb s)) in
       match callback with
       | None => throw (mkError host "Error" "Remote callback has been destroyed")
       | Some callback =>
           let* cargs := map_unmap host (index_or_undefined args 3) in
           let* value := apply adapter host callback VNull cargs in
           after_call adapter host id value reply
       end)).
    frame.
  - destruct tag as [tag|tag|]; try reflexivity.
    + destruct tag; try reflexivity. apply steady_push_endQueue.
    + apply steady_push_endQueue.
Qed.

Lemma steady_named_request name id args altThis reply optional :
  preserves steady (named_request adapter host name id args altThis reply optional).
Proof.
  unfold named_request. frame.
  apply (preserves_try_finally steady).
  - frame. apply steady_set_registry_or_queue; reflexivity.
  - intros s0. apply (steady_set_registry_or_queue
      (set_isRequest (fun _ => 0))); reflexivity.
Qed.

(** A request ([name] is truthy or [id] is [0]) only adds to the
    pending requests. *)
Lemma steady_onData_request name id args altThis reply optional :
  truthy name || (id =? 0) = true ->
  preserves steady (onData adapter host name id args altThis reply optional).
Proof.
  intros Hreq s. unfold onData. rewrite Hreq.
  destruct (negb (truthy name) && (id =? 0)).
  - pose proof (steady_special_request args reply s) as Hs.
    destruct (special_request adapter host args reply s) as [id' [b s1|e s1]];
      simpl in *; [exact Hs|].
    etransitivity; [exact Hs | apply steady_on_error].
  - pose proof (steady_named_request name id args altThis reply optional s) as Hs.
    destruct (named_request adapter host name id args altThis reply optional s)
      as [b s1|e s1]; simpl in *; [exact Hs|].
    etransitivity; [exact Hs | apply steady_on_error].
Qed.
End Frames.

(** ** Computations that complete normally *)
Section Completes.
Context (adapter : PortAdapter) (host : Host).

Lemma mapValue_normal (v : Value) (s : PortState) :
  exists w s', mapValue host v s = Normal w s'.
Proof.
  unfold mapValue.
  destruct (isObject v && hasProp "" v); [eexists _, _; reflexivity|].
  destruct v; try (destruct (isErrorLike _); eexists _, _; reflexivity).
  unfold bind, gets.
  destruct (mget f (cb2id s)) as [id|]; [destruct (truthy id)|];
    eexists _, _; reflexivity.
Qed.

Lemma array_map_mapValue_normal (vs : list Value) (s : PortState) :
  exists ws s', array_map (mapValue host) vs s = Normal ws s'.
Proof.
  revert s. induction vs as [|v vs IH]; intros s; simpl.
  - eexists _, _. reflexivity.
  - unfold bind at 1.
    destruct (mapValue_normal v s) as (w & s1 & ->).
    unfold bind at 1.
    destruct (IH s1) as (ws & s2 & ->).
    eexists _, _. reflexivity.
Qed.

Lemma respond_normal (reply : option nat) (id value : Value) (s : PortState) :
  (reply = None -> port s = true) ->
  exists s', respond adapter host reply id value s = Normal tt s'.
Proof.
  intros Hport. unfold respond.
  pose proof (quiet_mapValue host value s) as Hq.
  destruct (mapValue_normal value s) as (w & s1 & Hw).
  destruct reply as [r|].
  - unfold bind. rewrite Hw. eexists. reflexivity.
  - unfold port_send, bind, gets. rewrite Hport by reflexivity. simpl.
    rewrite Hw. eexists. reflexivity.
Qed.

Lemma on_error_normal (id : Value) (reply : option nat) (error : Value)
    (s : PortState) :
  (reply = None -> port s = true) ->
  exists s', on_error adapter host id reply error s = Normal false s'.
Proof.
  intros Hport. unfold on_error, bind.
  destruct (truthy id).
  - destruct (respond_normal reply (negate host id) error s Hport) as (s' & ->).
    eexists. reflexivity.
  - eexists. reflexivity.
Qed.

(** A request never throws to the caller of [onData] while the adapter
    is there to send with, or when a reply function was given. *)
Lemma onData_request_normal name id args altThis reply optional s :
  truthy name || (id =? 0) = true ->
  (reply = None -> port s = true) ->
  exists b s',
    onData adapter host name id args altThis reply optional s = Normal b s'.
Proof.
  intros Hreq Hport. unfold onData. rewrite Hreq.
  destruct (negb (truthy name) && (id =? 0)).
  - pose proof (steady_special_request adapter host args reply s) as Hs.
    destruct (special_request adapter host args reply s) as [id' [b s1|e s1]];
      simpl in *; [eexists _, _; reflexivity|].
    destruct (on_error_normal id' reply e s1) as (s' & ->);
      [|eexists _, _; reflexivity].
    intros Hr. rewrite (steady_port _ _ Hs). auto.
  - pose proof (steady_named_request adapter host name id args altThis
                  reply optional s) as Hs.
    destruct (named_request adapter host name id args altThis reply optional s)
      as [b s1|e s1]; simpl in *; [eexists _, _; reflexivity|].
    destruct (on_error_normal (VNum id) reply e s1) as (s' & ->);
      [|eexists _, _; reflexivity].
    intros Hr. rewrite (steady_port _ _ Hs). auto.
Qed.

Lemma flush_entries_normal (queue : list (Value * Value)) (s : PortState) :
  port s = true ->
  exists s',
    for_each (fun entry =>
                onData adapter host (fst entry) 0 (snd entry) VUndef None false
                >> ret tt) queue s = Normal tt s' /\
    steady s s'.
Proof.
  revert s. induction queue as [|[name args] queue IH]; intros s Hport; simpl.
  - exists s. split; reflexivity.
  - unfold bind at 1. unfold bind at 1.
    assert (truthy name || (0 =? 0) = true) as Hreq by apply orb_true_r.
    pose proof (steady_onData_request adapter host name 0 args VUndef None
                  false Hreq s) as Hs.
    destruct (onData_request_normal name 0 args VUndef None false s Hreq
                (fun _ => Hport)) as (b & s1 & Hrun).
    rewrite Hrun in *. simpl in *.
    destruct (IH s1) as (s2 & Hrest & Hs2).
    { rewrite (steady_port _ _ Hs). exact Hport. }
    exists s2. split; [exact Hrest|]. etransitivity; eassumption.
Qed.

Lemma flush_endQueue_normal (s : PortState) :
  port s = true ->
  exists s', flush_endQueue adapter host s = Normal tt s' /\ steady s s'.
Proof.
  intros Hport. unfold flush_endQueue, bind, gets.
  apply flush_entries_normal, Hport.
Qed.

Lemma for_each_emit {A} (f : A -> Event) (l : list A) (s : PortState) :
  for_each (fun x => emit (f x)) l s
  = Normal tt (set_log (fun lg => (rev (map f l) ++ lg)%list) s).
Proof.
  revert s. induction l as [|x l IH]; intros s; simpl.
  - destruct s; reflexivity.
  - unfold bind, emit, modify. simpl. rewrite IH.
    destruct s; simpl. f_equal. unfold set_log; simpl. f_equal.
    rewrite <- app_assoc. reflexivity.
Qed.

(** The fields when [destroy] returns, from the fields [s] the first
    loop left. *)
Definition closed (error : Value) (s : PortState) : PortState :=
  {| port := false; requests := []; handlers := [];
     wildcards := wildcards s; lastId := lastId s; cb2id := cb2id s;
     id2cb := []; endQueue := endQueue s; ended := true;
     _isRequest := _isRequest s; public := false;
     randomCalls := randomCalls s; closures := closures s;
     log :=
       (match adapter_destroy adapter with
        | Some thrown => [EvConsoleError thrown]
        | None => []
        end ++
        EvAdapterDestroy ::
        EvOnEnd (if bool_decide (typeof error = "object") then error else VNull) ::
        rev (map (fun entry => EvReject (snd entry) (destroyed_error host))
                 (requests s)) ++
        log s)%list |}.

Lemma destroy_open (error : Value) (s : PortState) :
  public s = true -> port s = true ->
  exists s1,
    steady s s1 /\
    destroy adapter host error s = Normal tt (closed error s1).
Proof.
  intros Hopen Hport.
  destruct (flush_endQueue_normal s Hport) as (s1 & Hflush & Hs).
  exists s1. split; [exact Hs|].
  unfold destroy. unfold bind at 1. unfold gets at 1. rewrite Hopen. simpl.
  unfold bind at 1. rewrite Hflush.
  unfold bind at 1. unfold reject_pending, bind at 1, gets at 1.
  rewrite for_each_emit.
  assert (port s1 = true) as Hport1.
  { rewrite (steady_port _ _ Hs). exact Hport. }
  unfold destroy_adapter, try_catch, bind, gets, modify, emit, closed. simpl.
  rewrite Hport1. simpl.
  destruct (adapter_destroy adapter); reflexivity.
Qed.

Lemma destroy_closed (error : Value) (s : PortState) :
  public s = false -> destroy adapter host error s = Normal tt s.
Proof. intros Hclosed. unfold destroy, bind, gets. rewrite Hclosed. reflexivity. Qed.
End Completes.

#[global] Hint Resolve quiet_mapValue quiet_unmapValue steady_mapValue
  steady_unmapValue steady_nextId steady_reportError steady_apply
  steady_respond steady_after_call steady_on_error steady_map_unmap
  steady_callStub steady_named_request : frames.
#[global] Hint Extern 1 (preserves steady (modify _)) =>
  apply steady_set_registry_or_queue; reflexivity : frames.
#[global] Hint Extern 1 (preserves steady (emit _)) =>
  apply steady_emit; discriminate : frames.
#[global] Hint Extern 1 (preserves steady (port_send _ _ _ _ _ _)) =>
  apply steady_port_send : frames.

(** What holds of the fields all along: an open Port has its adapter,
    which was not destroyed yet; the adapter is destroyed once at most;
    every pending request has an id that was taken. *)
Record consistent (s : PortState) : Prop := {
  open_has_port : public s = true -> port s = true;
  open_not_destroyed : public s = true -> adapter_destroys s = 0%nat;
  destroyed_once : (adapter_destroys s <= 1)%nat;
  pending_ids : forall id p, mget id (requests s) = Some p -> id <= lastId s
}.

Section LifeFrames.
Context (adapter : PortAdapter) (host : Host).

Lemma calm_of_steady {A} (m : M A) : preserves steady m -> preserves calm m.
Proof. apply preserves_weaken, steady_calm. Qed.

Lemma steady_getPrivate : preserves steady (getPrivate host).
Proof. unfold getPrivate. frame. Qed.

Lemma steady_addHandler name handler thisArg :
  preserves steady (addHandler host name handler thisArg).
Proof.
  unfold addHandler.
  destruct name; (destruct handler; [frame ..]).
Qed.

Lemma steady_check_entry entry : preserves steady (check_entry host entry).
Proof. unfold check_entry. frame. Qed.

Lemma steady_set_entry prefix thisArg entry :
  preserves steady (set_entry host prefix thisArg entry).
Proof. unfold set_entry. destruct entry as [name []]; frame. Qed.

Hint Resolve steady_check_entry steady_set_entry : frames.

Lemma steady_addHandlers prefix handlers thisArg :
  preserves steady (addHandlers host prefix handlers thisArg).
Proof.
  unfold addHandlers.
  destruct (bool_decide (typeof prefix = "object")); [|destruct prefix]; frame.
Qed.

Lemma steady_removeHandler name : preserves steady (removeHandler name).
Proof. unfold removeHandler. frame. Qed.

Lemma steady_hasHandler name : preserves steady (hasHandler name).
Proof. unfold hasHandler. frame. Qed.

Lemma steady_isRequest : preserves steady (isRequest host).
Proof. unfold isRequest. frame. Qed.

Lemma steady_request argv : preserves steady (request adapter host argv).
Proof.
  unfold request. destruct (shift_options argv) as [[options name] args].
  destruct name; try apply (preserves_throw steady).
  apply steady_file_request. intros id. apply steady_port_send. frame.
Qed.

Lemma steady_post argv : preserves steady (post adapter host argv).
Proof.
  unfold post. destruct (shift_options argv) as [[options name] args].
  destruct name; try apply (preserves_throw steady).
  frame. apply steady_port_send. frame.
Qed.

Lemma steady_afterEnded argv : preserves steady (afterEnded adapter host argv).
Proof.
  unfold afterEnded. destruct (shift_options argv) as [[options name] args].
  destruct name; try apply (preserves_throw steady).
  frame. apply steady_port_send. frame.
Qed.

Lemma steady_releaseCallback callback remote :
  preserves steady (releaseCallback adapter host callback remote).
Proof.
  unfold releaseCallback. frame. apply steady_port_send. frame.
Qed.

Lemma mget_mdelete_Some {K V} `{EqDecision K} (k k' : K) (v : V) m :
  mget k' (mdelete k m) = Some v -> mget k' m = Some v.
Proof.
  destruct (decide (k = k')) as [->|Hne].
  - rewrite mget_mdelete_eq. discriminate.
  - rewrite mget_mdelete_ne by exact Hne. auto.
Qed.

Lemma calm_settle (id : Z) : preserves calm (modify (set_requests (mdelete id))).
Proof.
  intros s. split; try reflexivity; simpl.
  intros id' p Hget. left. eapply mget_mdelete_Some, Hget.
Qed.

Lemma calm_resolve_reply id args : preserves calm (resolve_reply host id args).
Proof.
  unfold resolve_reply.
  apply (preserves_bind calm); [apply (preserves_gets calm)|]. intros request.
  apply (preserves_bind calm); [apply calm_settle|]. intros _.
  apply calm_of_steady. destruct (id <? 0); frame.
Qed.

Lemma calm_onData name id args altThis reply optional :
  preserves calm (onData adapter host name id args altThis reply optional).
Proof.
  destruct (truthy name || (id =? 0)) eqn:Hreq.
  - apply calm_of_steady, steady_onData_request, Hreq.
  - unfold onData. rewrite Hreq.
    apply (preserves_try_catch calm); [apply calm_resolve_reply|].
    intros e. apply calm_of_steady. frame.
Qed.
End LifeFrames.

Section Lifetime.
Context (adapter : PortAdapter) (host : Host).

Lemma steady_guarded {A} (m : M A) :
  preserves steady m -> preserves steady (getPrivate host >> m).
Proof.
  intros Hm. apply (preserves_bind steady); [apply steady_getPrivate|].
  intros _. exact Hm.
Qed.

Lemma steady_discard {A} (m : M A) :
  preserves steady m -> preserves steady (m >> ret tt).
Proof.
  intros Hm. apply (preserves_bind steady); [exact Hm|].
  intros _. apply (preserves_ret steady).
Qed.

Lemma calm_perform (op : Op) :
  (forall reason, op <> CallDestroy reason) ->
  (forall reason, op <> AdapterEnd reason) ->
  preserves calm (perform adapter host op).
Proof.
  intros Hd He. destruct op; simpl.
  - apply calm_of_steady, steady_guarded, steady_addHandler.
  - apply calm_of_steady, steady_guarded, steady_addHandlers.
  - apply calm_of_steady, steady_guarded, steady_removeHandler.
  - apply calm_of_steady, steady_discard, steady_guarded, steady_hasHandler.
  - apply calm_of_steady, steady_discard, steady_guarded, steady_request.
  - apply calm_of_steady, steady_guarded, steady_post.
  - apply calm_of_steady, steady_guarded, steady_afterEnded.
  - apply calm_of_steady, steady_discard, steady_guarded, steady_isRequest.
  - apply calm_of_steady, steady_guarded, steady_releaseCallback.
  - exfalso. eapply Hd. reflexivity.
  - apply calm_of_steady.
    apply (preserves_bind steady); [apply (preserves_gets steady)|].
    intros [cbId|]; [|apply (preserves_ret steady)].
    apply steady_discard, steady_callStub.
  - apply (preserves_bind calm); [apply calm_onData|].
    intros ?. apply (preserves_ret calm).
  - exfalso. eapply He. reflexivity.
Qed.

Lemma consistent_new : consistent new_Port.
Proof.
  split; simpl; intros; try reflexivity.
  - unfold adapter_destroys. simpl. lia.
  - discriminate.
Qed.

Lemma consistent_calm (s s' : PortState) :
  consistent s -> calm s s' -> consistent s'.
Proof.
  intros [] []. split.
  - rewrite calm_port0, calm_public0. assumption.
  - rewrite calm_destroys0, calm_public0. assumption.
  - rewrite calm_destroys0. assumption.
  - intros id p Hget. apply calm_new0 in Hget as [Hget|Hrange]; [|lia].
    apply pending_ids0 in Hget. lia.
Qed.

Lemma no_destroy_among_rejects (error : Value) (pending : list (Z * PromiseRef)) :
  List.filter (fun e => bool_decide (e = EvAdapterDestroy))
    (rev (map (fun entry => EvReject (snd entry) error) pending)) = [].
Proof.
  induction pending as [|entry pending IH]; simpl; [reflexivity|].
  rewrite List.filter_app, IH. reflexivity.
Qed.

Lemma adapter_destroys_closed (error : Value) (s : PortState) :
  adapter_destroys (closed adapter host error s) = S (adapter_destroys s).
Proof.
  unfold adapter_destroys, closed. simpl.
  rewrite List.filter_app. simpl.
  rewrite List.filter_app, no_destroy_among_rejects. simpl.
  destruct (adapter_destroy adapter); reflexivity.
Qed.

Lemma consistent_closed (error : Value) (s s1 : PortState) :
  consistent s -> public s = true -> steady s s1 ->
  consistent (closed adapter host error s1).
Proof.
  intros Hc Hopen Hs. split; simpl; try discriminate.
  rewrite adapter_destroys_closed, (steady_destroys _ _ Hs).
  rewrite (open_not_destroyed _ Hc Hopen). lia.
Qed.

(** [destroy] on a Port in use: the first invocation. *)
Lemma destroy_first (error : Value) (s : PortState) :
  consistent s -> public s = true ->
  exists s1,
    steady s s1 /\
    destroy adapter host error s = Normal tt (closed adapter host error s1).
Proof.
  intros Hc Hopen. apply destroy_open; [exact Hopen|].
  apply (open_has_port _ Hc Hopen).
Qed.

Lemma consistent_destroy (error : Value) (s : PortState) :
  consistent s ->
  exists s', destroy adapter host error s = Normal tt s' /\
             consistent s' /\ public s' = false.
Proof.
  intros Hc. destruct (public s) eqn:Hopen.
  - destruct (destroy_first error s Hc Hopen) as (s1 & Hs & Hrun).
    eexists. split; [exact Hrun|]. split; [|reflexivity].
    eapply consistent_closed; eassumption.
  - exists s. split; [apply destroy_closed, Hopen|]. split; assumption.
Qed.

Lemma consistent_step (s : PortState) (op : Op) :
  consistent s -> consistent (step adapter host s op).
Proof.
  intros Hc. unfold step.
  destruct op;
    try (eapply consistent_calm; [exact Hc|];
         apply calm_perform; discriminate).
  - simpl. unfold Port_destroy, try_catch.
    destruct (consistent_destroy reason s Hc) as (s' & -> & Hc' & _). exact Hc'.
  - simpl. destruct (consistent_destroy reason s Hc) as (s' & -> & Hc' & _).
    exact Hc'.
Qed.

Lemma consistent_run (ops : list Op) (s : PortState) :
  consistent s -> consistent (run adapter host ops s).
Proof.
  revert s. induction ops as [|op ops IH]; intros s Hc; simpl; [exact Hc|].
  apply IH, consistent_step, Hc.
Qed.

Lemma reachable_consistent (s : PortState) :
  reachable adapter host s -> consistent s.
Proof. intros [ops ->]. apply consistent_run, consistent_new. Qed.


End Lifetime.

(** ** Termination *)
Section Termination.
Context (adapter : PortAdapter) (host : Host).

(** C4: the first [destroy] of a Port returns normally; every request
    that was pending is rejected with the error of the destroyed Port
    and the request table is empty afterwards; a [request] made on the
    public object after that throws to its caller, and the Port is as
    it was (nothing is sent, nothing is filed). *)
Theorem destroy_rejects_pending (reason : Value) (s : PortState) :
  reachable adapter host s ->
  public s = true ->
  exists s',
    destroy adapter host reason s = Normal tt s' /\
    Port_destroy adapter host reason s = Normal tt s' /\
    requests s' = [] /\
    (forall id p,
       mget id (requests s) = Some p ->
       In (EvReject p (destroyed_error host)) (log s')) /\
    (forall options name args,
       Port_request adapter host options name args s'
       = Throw (mkError host "Error" "Can't use disconnected Port") s').
Proof.
  intros Hreach Hopen. apply reachable_consistent in Hreach as Hc.
  destruct (destroy_first adapter host reason s Hc Hopen) as (s1 & Hs & Hrun).
  exists (closed adapter host reason s1).
  split; [exact Hrun|].
  split; [unfold Port_destroy, try_catch; rewrite Hrun; reflexivity|].
  split; [reflexivity|].
  split; [|reflexivity].
  intros id p Hget.
  assert (mget id (requests s1) = Some p) as Hkept.
  { apply (steady_kept _ _ Hs); [|exact Hget].
    apply (pending_ids _ Hc id p Hget). }
  apply mget_In in Hkept. simpl.
  apply in_or_app. right. right. right.
  apply in_or_app. left. apply in_rev. rewrite rev_involutive.
  apply (in_map (fun entry => EvReject (snd entry) (destroyed_error host))
           _ _ Hkept).
Qed.

End Termination.

Lemma destroy_rejects_pending_witness :
  exists s',
    destroy silent_adapter plain_host VUndef port_with_requests = Normal tt s' /\
    Port_destroy silent_adapter plain_host VUndef port_with_requests
      = Normal tt s' /\
    requests s' = [] /\
    (forall id p,
       mget id (requests port_with_requests) = Some p ->
       In (EvReject p (destroyed_error plain_host)) (log s')) /\
    (forall options name args,
       Port_request silent_adapter plain_host options name args s'
       = Throw (mkError plain_host "Error" "Can't use disconnected Port") s').
Proof.
  apply (destroy_rejects_pending silent_adapter plain_host VUndef
           port_with_requests).
  - exists [CallRequest (VStr "a") VUndef VUndef;
            CallRequest (VStr "b") VUndef VUndef;
            CallRequest (VStr "c") VUndef VUndef].
    reflexivity.
  - vm_compute. reflexivity.
Defined.

(** The three requests of [port_with_requests] have the ids 2, 3 and 4;
    [destroy] rejects the three of them and a fourth request throws. *)
Example destroy_three_pending :
  requests port_with_requests
    = [(2, PRequest 2); (3, PRequest 3); (4, PRequest 4)] /\
  exists s',
    destroy silent_adapter plain_host VUndef port_with_requests = Normal tt s' /\
    log s' =
      ([EvAdapterDestroy; EvOnEnd VNull;
        EvReject (PRequest 4) (destroyed_error plain_host);
        EvReject (PRequest 3) (destroyed_error plain_host);
        EvReject (PRequest 2) (destroyed_error plain_host)]
       ++ log port_with_requests)%list /\
    Port_request silent_adapter plain_host (VStr "d") VUndef VUndef s'
      = Throw (mkError plain_host "Error" "Can't use disconnected Port") s'.
Proof.
  split; [vm_compute; reflexivity|]. eexists.
  split; [vm_compute; reflexivity|].
  split; vm_compute; reflexivity.
Qed.

(** ** Replies and unhandled requests *)
Section Dispatch.
Context (adapter : PortAdapter) (host : Host).




End Dispatch.



(** Replies out of issue order: the requests 2, 3 and 4 are pending, the
    reply to 3 arrives before the reply to 2, and each resolves its own
    request; the request 4 stays pending. *)
Example replies_out_of_order :
  exists s1 s2,
    onData silent_adapter plain_host (VStr "") 3 (VArr [VStr "three"])
      VUndef None false port_with_requests = Normal false s1 /\
    onData silent_adapter plain_host (VStr "") 2 (VArr [VStr "two"])
      VUndef None false s1 = Normal false s2 /\
    requests s2 = [(4, PRequest 4)] /\
    log s2 = (EvResolve (PRequest 2) (VStr "two")
              :: EvResolve (PRequest 3) (VStr "three")
              :: log port_with_requests).
Proof.
  eexists _, _. split; [vm_compute; reflexivity|].
  split; [vm_compute; reflexivity|].
  split; vm_compute; reflexivity.
Qed.

Section Unhandled.
Context (adapter : PortAdapter) (host : Host).


(** What [mapValue] makes of an error of the class [Error] with the
    given message. *)
Definition error_on_wire (message : string) : Value :=
  literal
    [("", VNum 2); ("name", VStr "Error"); ("message", VStr message);
     ("stack", VStr (js_stack host "Error" message));
     ("code", VUndef); ("status", VUndef); ("expose", VUndef);
     ("fileName", VUndef); ("lineNumber", VUndef); ("columnNumber", VUndef)].

Lemma mapValue_Error (message : string) (s : PortState) :
  mapValue host (mkError host "Error" message) s
  = Normal (error_on_wire message) s.
Proof. reflexivity. Qed.

(** The reply that carries [wire] under [id]. *)
Definition reply_event (reply : option nat) (id : Z) (wire : Value) : Event :=
  match reply with
  | Some r => EvReply r "" (VNum id) [wire]
  | None => EvSend "" (VNum id) [wire] VUndef
  end.

Lemma truthy_name (n : string) : n <> "" -> truthy (VStr n) = true.
Proof.
  intros Hn. simpl. rewrite bool_decide_eq_false_2 by exact Hn. reflexivity.
Qed.

End Unhandled.



(** ** Callback registry: interning *)
Section Interning.
Context (host : Host).











End Interning.

(** The same function three times among other arguments, and the same
    id twice among other values. *)
Example interning_example :
  (exists s,
     array_map (mapValue plain_host)
       [VFun on_event; VNum 1; VFun get_b; VFun on_event; VFun on_event] new_Port
     = Normal [callback_ref (VStr "cb0"); VNum 1; callback_ref (VStr "cb1");
               callback_ref (VStr "cb0"); callback_ref (VStr "cb0")] s) /\
  (exists s,
     array_map (unmapValue plain_host)
       [callback_ref (VStr "x"); callback_ref (VStr "y"); callback_ref (VStr "x")]
       new_Port
     = Normal [VFun (FStub 0); VFun (FStub 1); VFun (FStub 0)] s).
Proof. split; eexists; vm_compute; reflexivity. Qed.

(** ** Callback registry: interning across traffic *)
Section Traffic.
Context (host : Host).

(** The function exists: a stub was allocated by this Port. *)
Definition allocated (f : FunRef) (s : PortState) : Prop :=
  match f with
  | FLocal _ _ => True
  | FStub n => (n < length (closures s))%nat
  end.

(** Wherever [id2cb] holds [f], it is under the truthy id that [cb2id]
    gives for [f]. *)
Definition files_own_id (f : FunRef) (s : PortState) : Prop :=
  allocated f s /\
  forall y, mget y (id2cb s) = Some f ->
            mget f (cb2id s) = Some y /\ truthy y = true.

(** Whatever [cb2id] files under [x] is the function [id2cb] holds for
    [x], and [getRandomId] will not give [x]. *)
Definition knows_own_function (x : Value) (s : PortState) : Prop :=
  (forall n, (randomCalls s <= n)%nat -> VStr (getRandomId host n) <> x) /\
  forall g, mget g (cb2id s) = Some x -> mget x (id2cb s) = Some g.








#[global] Instance Crossing_eq_dec : EqDecision Crossing.
Proof. solve_decision. Defined.





End Traffic.


(** On a new Port the registry files every function of the application
    under its own id, and knows the function of every id that
    [getRandomId] does not make. *)
Lemma new_Port_files_own_id (addr : nat) (name : string) :
  files_own_id (FLocal addr name) new_Port.
Proof. split; [exact I|]. intros y. discriminate. Qed.

Lemma new_Port_knows_own_function (host : Host) (x : Value) :
  (forall n, VStr (getRandomId host n) <> x) ->
  knows_own_function host x new_Port.
Proof. intros Hnever. split; [auto|]. intros g. discriminate. Qed.

(** A function sent, a reply with a callback id decoded, the function
    sent again, the id decoded again. *)
Example interning_across_traffic :
  map (fun r => match r with Normal v _ => Some v | Throw _ _ => None end)
    (crossings plain_host
       [Outbound (VFun on_event); Inbound (callback_ref (VStr "peer1"));
        Inbound (literal [("", VNum 7)]); Outbound (VFun on_event);
        Inbound (callback_ref (VStr "peer1"))]
       new_Port)
  = [Some (callback_ref (VStr "cb0")); Some (VFun (FStub 0)); None;
     Some (callback_ref (VStr "cb0")); Some (VFun (FStub 0))].
Proof. vm_compute. reflexivity. Qed.


(** * Further properties of the class *)

(** ** Handler registry: [addHandler], [hasHandler], [removeHandler] *)
Section Registry.
Context (host : Host).

Definition duplicate_error (n : string) : Value :=
  mkError host "Error"
    ("Duplicate message handler for " +:+ dquote +:+ n +:+ dquote).

Lemma mhas_mset_eq {K V} `{EqDecision K} (k : K) (v : V) m :
  mhas k (mset k v m) = true.
Proof. unfold mhas. rewrite mget_mset_eq. reflexivity. Qed.

Lemma addHandler_named (n : string) (h : FunRef) (thisArg : Value)
    (s : PortState) :
  n <> "" ->
  addHandler host (VStr n) (VFun h) thisArg s =
    if mhas n (handlers s) then Throw (duplicate_error n) s
    else Normal tt (set_handlers (mset n (h, thisArg)) s).
Proof.
  intros Hn. unfold addHandler, bind, gets. simpl.
  rewrite bool_decide_eq_false_2 by exact Hn. simpl.
  destruct (mhas n (handlers s)); reflexivity.
Qed.

(** X1: a handler added under a free, non-empty name is found by
    [hasHandler] and leaves every other name as it was; a second
    [addHandler] under that name throws the duplicate error and changes
    nothing; [removeHandler] makes the name free again, with every lookup
    as before the handler was added. *)
Theorem handler_add_has_remove
    (n : string) (h : FunRef) (thisArg : Value) (s : PortState) :
  n <> "" ->
  mget n (handlers s) = None ->
  exists s1 s2,
    addHandler host (VStr n) (VFun h) thisArg s = Normal tt s1 /\
    hasHandler (VStr n) s1 = Normal true s1 /\
    mget n (handlers s1) = Some (h, thisArg) /\
    (forall m, m <> n -> mget m (handlers s1) = mget m (handlers s)) /\
    (forall h' thisArg',
       addHandler host (VStr n) (VFun h') thisArg' s1
       = Throw (duplicate_error n) s1) /\
    removeHandler (VStr n) s1 = Normal tt s2 /\
    hasHandler (VStr n) s2 = Normal false s2 /\
    (forall m, mget m (handlers s2) = mget m (handlers s)).
Proof.
  intros Hn Hfree.
  exists (set_handlers (mset n (h, thisArg)) s).
  exists (set_handlers (mdelete n) (set_handlers (mset n (h, thisArg)) s)).
  split.
  { rewrite (addHandler_named n h thisArg s Hn).
    unfold mhas. rewrite Hfree. reflexivity. }
  split.
  { unfold hasHandler, gets. simpl. rewrite mhas_mset_eq. reflexivity. }
  split; [simpl; apply mget_mset_eq|].
  split; [intros m Hm; simpl; apply mget_mset_ne; congruence|].
  split.
  { intros h' thisArg'. rewrite (addHandler_named n h' thisArg' _ Hn).
    simpl. rewrite mhas_mset_eq. reflexivity. }
  split; [reflexivity|].
  split.
  { unfold hasHandler, gets, mhas. simpl.
    rewrite mget_mdelete_eq. reflexivity. }
  intros m. simpl. destruct (decide (n = m)) as [<-|Hm].
  - rewrite mget_mdelete_eq. symmetry. exact Hfree.
  - rewrite mget_mdelete_ne by exact Hm. apply mget_mset_ne. exact Hm.
Qed.




End Registry.

Lemma handler_add_has_remove_witness :
  exists s1 s2,
    addHandler plain_host (VStr "sum") (VFun get_b) VNull new_Port
      = Normal tt s1 /\
    hasHandler (VStr "sum") s1 = Normal true s1 /\
    mget "sum" (handlers s1) = Some (get_b, VNull) /\
    (forall m, m <> "sum" -> mget m (handlers s1) = mget m (handlers new_Port)) /\
    (forall h' thisArg',
       addHandler plain_host (VStr "sum") (VFun h') thisArg' s1
       = Throw (duplicate_error plain_host "sum") s1) /\
    removeHandler (VStr "sum") s1 = Normal tt s2 /\
    hasHandler (VStr "sum") s2 = Normal false s2 /\
    (forall m, mget m (handlers s2) = mget m (handlers new_Port)).
Proof.
  apply (handler_add_has_remove plain_host "sum" get_b VNull new_Port).
  - discriminate.
  - reflexivity.
Defined.

(** ** Dispatch of a request to its handler *)
Section Handling.
Context (adapter : PortAdapter) (host : Host).

(** The handler [onData] finds for a name: the exact one, else the first
    wildcard that matches; for a wildcard the name is put before the
    arguments. *)
Definition resolve_handler (n : string) (s : PortState)
    : option (FunRef * Value * bool) :=
  match mget n (handlers s) with
  | Some (handler, thisArg) => Some (handler, thisArg, false)
  | None =>
      match find_wildcard host n (wildcards s) with
      | Some (handler, thisArg) => Some (handler, thisArg, true)
      | None => None
      end
  end.

(** The fields when the handler has returned or thrown: the call is
    logged and the request flag is back to neutral. *)
Definition handled (f : FunRef) (this : Value) (args : list Value)
    (s : PortState) : PortState :=
  set_isRequest (fun _ => 0) (set_log (cons (EvApply f this args)) s).

Lemma quiet_decode (args : list Value) (s : PortState) :
  quiet s (final (array_map (unmapValue host) args s)).
Proof. apply (preserves_array_map quiet), quiet_unmapValue. Qed.

Lemma named_request_dispatch
    (n : string) (id : Z) (args decoded : list Value) (altThis : Value)
    (reply : option nat) (optional : bool) (s s1 : PortState)
    (h : FunRef) (thisArg : Value) (prefixed : bool) :
  array_map (unmapValue host) args s = Normal decoded s1 ->
  resolve_handler n s = Some (h, thisArg, prefixed) ->
  named_request adapter host (VStr n) id (VArr args) altThis reply optional s =
    match apply adapter host h
            (if bool_decide (thisArg = VUndef) then altThis else thisArg)
            (if prefixed then VStr n :: decoded else decoded)
            (set_isRequest (fun _ => if id =? 0 then -1 else 1) s1) with
    | Normal value s3 =>
        after_call adapter host (VNum id) value reply
          (set_isRequest (fun _ => 0) s3)
    | Throw e s3 => Throw e (set_isRequest (fun _ => 0) s3)
    end.
Proof.
  intros Hdecode Hfound.
  pose proof (quiet_decode args s) as Hq. rewrite Hdecode in Hq. simpl in Hq.
  unfold resolve_handler in Hfound.
  unfold named_request, map_unmap. unfold bind at 1. rewrite Hdecode.
  unfold bind at 1, gets at 1. rewrite (quiet_handlers _ _ Hq).
  destruct (mget n (handlers s)) as [[h0 t0]|].
  - injection Hfound as <- <- <-. unfold bind at 1. simpl.
    unfold bind at 1, try_finally, bind, modify.
    destruct (apply adapter host h0 _ _ _); reflexivity.
  - unfold bind at 1. unfold bind at 1, gets at 1.
    rewrite (quiet_wildcards _ _ Hq). simpl.
    destruct (find_wildcard host n (wildcards s)) as [[h0 t0]|]; [|discriminate].
    injection Hfound as <- <- <-. simpl.
    unfold bind at 1, try_finally, bind, modify.
    destruct (apply adapter host h0 _ _ _); reflexivity.
Qed.


Lemma onData_local_handler
    (n : string) (id : Z) (args decoded : list Value) (altThis : Value)
    (reply : option nat) (optional : bool) (s s1 : PortState)
    (addr : nat) (fname : string) (thisArg : Value) (prefixed : bool) :
  let h := FLocal addr fname in
  let this := if bool_decide (thisArg = VUndef) then altThis else thisArg in
  let callargs := if prefixed then VStr n :: decoded else decoded in
  n <> "" ->
  array_map (unmapValue host) args s = Normal decoded s1 ->
  resolve_handler n s = Some (h, thisArg, prefixed) ->
  onData adapter host (VStr n) id (VArr args) altThis reply optional s =
    match applyLocal host h this callargs with
    | inl value =>
        match after_call adapter host (VNum id) value reply
                (handled h this callargs s1) with
        | Normal result s' => Normal result s'
        | Throw e s' => on_error adapter host (VNum id) reply e s'
        end
    | inr e => on_error adapter host (VNum id) reply e (handled h this callargs s1)
    end.
Proof.
  intros h this callargs Hn Hdecode Hfound.
  unfold onData. rewrite (truthy_name n Hn). simpl.
  rewrite (named_request_dispatch n id args decoded altThis reply optional
             s s1 h thisArg prefixed Hdecode Hfound).
  fold this callargs. unfold h at 1, apply, bind, emit, modify. fold h.
  destruct (applyLocal host h this callargs); reflexivity.
Qed.



(** X5: a request whose handler returns a promise.  Nothing is sent
    while [onData] runs.  For an id other than [0] the two reactions that
    will send the reply are attached and [onData] returns [true]; for the
    id [0] only the reaction that reports a rejection is attached and
    [onData] returns [false]. *)
Theorem handler_promise_is_awaited
    (n : string) (id : Z) (args decoded : list Value) (altThis : Value)
    (reply : option nat) (optional : bool) (s s1 : PortState)
    (addr : nat) (fname : string) (thisArg : Value) (prefixed : bool)
    (p : PromiseRef) :
  let h := FLocal addr fname in
  let this := if bool_decide (thisArg = VUndef) then altThis else thisArg in
  let callargs := if prefixed then VStr n :: decoded else decoded in
  n <> "" ->
  array_map (unmapValue host) args s = Normal decoded s1 ->
  resolve_handler n s = Some (h, thisArg, prefixed) ->
  applyLocal host h this callargs = inl (VPromise p) ->
  onData adapter host (VStr n) id (VArr args) altThis reply optional s
  = Normal (negb (id =? 0))
      (set_log
         (cons (EvThen (VPromise p)
                  (if id =? 0 then KReportAsync
                   else KReplyAsync reply (VNum id))))
         (handled h this callargs s1)).
Proof.
  intros h this callargs Hn Hdecode Hfound Hreturns.
  rewrite (onData_local_handler n id args decoded altThis reply optional
             s s1 addr fname thisArg prefixed Hn Hdecode Hfound).
  fold h this callargs. rewrite Hreturns.
  unfold after_call, bind, emit, modify.
  change (is_zero (VNum id)) with (id =? 0).
  destruct (id =? 0) eqn:Hid; reflexivity.
Qed.
End Handling.

(** An application with three handlers: [sum] adds its numeric
    arguments, [fail] throws a [RangeError], [later] returns a promise.
    The host knows the class [RangeError]. *)
Definition sum_handler : FunRef := FLocal 10 "sum".
Definition fail_handler : FunRef := FLocal 11 "fail".
Definition later_handler : FunRef := FLocal 12 "later".

Definition app_host : Host :=
  {| getRandomId := fun n => "cb" +:+ pretty n;
     applyLocal := fun f _ args =>
       match f with
       | FLocal 10 _ =>
           inl (VNum (fold_right
                        (fun v acc => match v with VNum k => k + acc | _ => acc end)
                        0 args))
       | FLocal 11 _ =>
           inr (VObj (Some "RangeError")
                  [("name", VStr "RangeError"); ("message", VStr "bad");
                   ("stack", VStr "")])
       | FLocal 12 _ => inl (VPromise (PForeign 0))
       | _ => inl VUndef
       end;
     regexp_test := fun r name => bool_decide (r = 0%nat);
     js_ToString := fun _ => "[object Object]";
     js_ToNumber := fun _ => VNaN;
     new_global := fun name =>
       if bool_decide (name = VStr "RangeError")
       then Some (inl (VObj (Some "RangeError")
                         [("name", VStr "RangeError"); ("message", VStr "");
                          ("stack", VStr "")]))
       else None;
     js_stack := fun _ _ => "";
     js_TypeError :=
       VObj (Some "TypeError") [("name", VStr "TypeError"); ("message", VStr "")] |}.

(** A Port with the exact handlers [sum] and [later] and with [fail]
    behind the wildcard [0], which matches every name. *)
Definition port_with_app : PortState :=
  final (addHandler app_host (VRegExp 0) (VFun fail_handler) VUndef
    (final (addHandler app_host (VStr "later") (VFun later_handler) VUndef
      (final (addHandler app_host (VStr "sum") (VFun sum_handler) VNull
                new_Port))))).



Lemma handler_promise_is_awaited_witness :
  onData silent_adapter app_host (VStr "later") 7 (VArr [])
    VUndef None false port_with_app
  = Normal true
      (set_log
         (cons (EvThen (VPromise (PForeign 0)) (KReplyAsync None (VNum 7))))
         (handled later_handler VUndef [] port_with_app)).
Proof.
  apply (handler_promise_is_awaited silent_adapter app_host "later" 7
           [] [] VUndef None false
           port_with_app port_with_app 12 "later" VUndef false (PForeign 0)).
  - discriminate.
  - reflexivity.
  - reflexivity.
  - reflexivity.
Defined.

(** ** Callbacks: the call of a function the peer was sent *)
Section Callbacks.
Context (adapter : PortAdapter) (host : Host).

(** The message a stub sends: [[id, 0, cbId, args]]. *)
Definition call_message (id : Z) (cbId : Value) (args : list Value) : Value :=
  VArr [VNum id; VNum 0; cbId; VArr args].

(** The notice [releaseCallback] sends: [[0, 2, cbId]]. *)
Definition release_notice (cbId : Value) : Event :=
  EvSend "" (VNum 0) [VNum 0; VNum 2; cbId] VNull.

Definition released_error : Value :=
  mkError host "Error" "Remote callback has been destroyed".

Definition closed_error : Value :=
  mkError host "Error" "Remote callback connection is closed".



Lemma releaseCallback_bound (f : FunRef) (cbId : Value) (s : PortState) :
  mget f (cb2id s) = Some cbId -> truthy cbId = true -> port s = true ->
  releaseCallback adapter host (VFun f) false s
  = Normal tt
      (set_log (cons (release_notice cbId))
         (set_cb2id (mdelete f) (set_id2cb (mdelete cbId) s))).
Proof.
  intros Hbound Htruthy Hport.
  unfold releaseCallback, bind, gets, modify. rewrite Hbound. simpl.
  rewrite Htruthy. simpl. unfold port_send, bind, gets. simpl.
  rewrite Hport. reflexivity.
Qed.

Lemma onData_unbound_call
    (id : Z) (cbId : Value) (args : list Value) (altThis : Value)
    (reply : option nat) (optional : bool) (s : PortState) :
  id <> 0 ->
  mget cbId (id2cb s) = None ->
  (reply = None -> port s = true) ->
  onData adapter host (VStr "") 0 (call_message id cbId args)
    altThis reply optional s
  = Normal false
      (set_log
         (cons (reply_event reply (- id)
                  (error_on_wire host "Remote callback has been destroyed")))
         s).
Proof.
  intros Hid Hnone Hport.
  assert ((id =? 0) = false) as Hnz by (apply Z.eqb_neq; exact Hid).
  unfold onData, special_request, call_message. simpl.
  change (index_or_undefined (VArr [VNum id; VNum 0; cbId; VArr args]) 2)
    with cbId.
  unfold bind at 1, gets at 1. rewrite Hnone. cbv [throw].
  unfold on_error, bind.
  change (truthy (VNum id)) with (negb (id =? 0)). rewrite Hnz.
  change (negate host (VNum id)) with (VNum (- id)). cbn [negb].
  unfold respond. destruct reply as [r|].
  - unfold bind. rewrite mapValue_Error. reflexivity.
  - unfold port_send, bind, gets. rewrite Hport by reflexivity. reflexivity.
Qed.

(** X7: [releaseCallback] of a function that was sent under [cbId]
    sends the release notice [[0, 2, cbId]] and forgets the function.  A
    call of [cbId] that arrives afterwards does not reach the function:
    it is answered, under the negated id, with the error that the
    callback has been destroyed.  Sent again, the function gets a new
    random id. *)
Theorem released_callback_is_refused
    (f : FunRef) (cbId : Value) (s : PortState) :
  mget f (cb2id s) = Some cbId -> truthy cbId = true -> port s = true ->
  exists released,
    releaseCallback adapter host (VFun f) false s = Normal tt released /\
    log released = release_notice cbId :: log s /\
    (forall id args altThis reply optional,
       id <> 0 ->
       onData adapter host (VStr "") 0 (call_message id cbId args)
         altThis reply optional released
       = Normal false
           (set_log
              (cons (reply_event reply (- id)
                       (error_on_wire host "Remote callback has been destroyed")))
              released)) /\
    exists s',
      mapValue host (VFun f) released
      = Normal (callback_ref (VStr (getRandomId host (randomCalls s)))) s'.
Proof.
  intros Hbound Htruthy Hport.
  exists (set_log (cons (release_notice cbId))
            (set_cb2id (mdelete f) (set_id2cb (mdelete cbId) s))).
  split; [exact (releaseCallback_bound f cbId s Hbound Htruthy Hport)|].
  split; [reflexivity|]. split.
  - intros id args altThis reply optional Hid.
    apply onData_unbound_call; [exact Hid| |intros _; exact Hport].
    simpl. apply mget_mdelete_eq.
  - unfold mapValue. simpl. unfold bind at 1, gets at 1. simpl.
    rewrite mget_mdelete_eq. eexists. reflexivity.
Qed.

Lemma callStub_open (cbId : Value) (args mapped : list Value)
    (s s1 : PortState) :
  let id := lastId s + 1 in
  let message := [VNum id; VNum 0; cbId; VArr mapped] in
  let sent := set_log (cons (EvSend "" (VNum 0) message VNull)) s1 in
  public s = true -> port s = true ->
  array_map (mapValue host) args (set_lastId (fun n => n + 1) s)
    = Normal mapped s1 ->
  callStub adapter host cbId args s =
    if bool_decide (adapter_send adapter "" (VNum 0) message VNull = VUndef)
    then Normal (VPromise (PRequest id))
           (set_requests (mset id (PRequest id)) sent)
    else Normal (adapter_send adapter "" (VNum 0) message VNull) sent.
Proof.
  intros id message sent Hopen Hport Hmap.
  unfold callStub. unfold bind at 1, gets at 1. rewrite Hopen. cbn [negb].
  unfold bind at 1, nextId. fold id.
  unfold bind at 1, port_send. unfold bind at 1, gets at 1.
  cbn [port set_lastId]. rewrite Hport. cbn [negb].
  unfold bind at 1. unfold bind at 1. rewrite Hmap.
  unfold ret at 1. unfold bind at 1, emit, modify. unfold ret at 1.
  fold message. fold sent.
  destruct (bool_decide (adapter_send adapter "" (VNum 0) message VNull = VUndef));
    reflexivity.
Qed.

(** X8: calling the stub that stands for the peer's function [cbId].
    On an open Port the call takes the next request id, sends
    [[id, 0, cbId, mapped arguments]] as a special message and, when the
    adapter's [send] returned [undefined], files a request under that id
    and returns its promise; what [send] returned otherwise is returned
    as it is and nothing is filed.  On a destroyed Port the call throws
    and changes nothing. *)
Theorem stub_call_sends_request
    (n : nat) (cbId this : Value) (args : list Value) (s : PortState) :
  nth_error (closures s) n = Some cbId ->
  (public s = false ->
     apply adapter host (FStub n) this args s = Throw closed_error s) /\
  (public s = true -> port s = true ->
   exists mapped s1,
     let id := lastId s + 1 in
     let message := [VNum id; VNum 0; cbId; VArr mapped] in
     let sent := set_log (cons (EvSend "" (VNum 0) message VNull)) s1 in
     array_map (mapValue host) args (set_lastId (fun n => n + 1) s)
       = Normal mapped s1 /\
     length mapped = length args /\
     apply adapter host (FStub n) this args s =
       if bool_decide (adapter_send adapter "" (VNum 0) message VNull = VUndef)
       then Normal (VPromise (PRequest id))
              (set_requests (mset id (PRequest id)) sent)
       else Normal (adapter_send adapter "" (VNum 0) message VNull) sent).
Proof.
  intros Hstub.
  assert (nth n (closures s) VUndef = cbId) as Hnth.
  { apply nth_error_nth. exact Hstub. }
  split.
  - intros Hclosed. unfold apply, bind, gets. rewrite Hnth.
    unfold callStub, bind, gets. rewrite Hclosed. reflexivity.
  - intros Hopen Hport.
    destruct (array_map_mapValue_normal host args
                (set_lastId (fun n => n + 1) s)) as (mapped & s1 & Hmap).
    exists mapped, s1. split; [exact Hmap|]. split.
    + clear -Hmap. revert mapped s1 Hmap.
      generalize (set_lastId (fun n => n + 1) s).
      induction args as [|v vs IH]; intros s0 mapped s1 Hmap; simpl in Hmap.
      * cbv [ret] in Hmap. simplify_eq. reflexivity.
      * unfold bind in Hmap.
        destruct (mapValue host v s0) as [w s0'|e s0']; [|discriminate].
        destruct (array_map (mapValue host) vs s0') as [ws s0''|e s0''] eqn:Hrest;
          [|discriminate].
        cbv [ret] in Hmap. simplify_eq. simpl. f_equal. eapply IH, Hrest.
    + unfold apply. unfold bind at 1, gets at 1. rewrite Hnth.
      apply (callStub_open cbId args mapped s s1 Hopen Hport Hmap).
Qed.
End Callbacks.

(** A Port on which the function [sum] was sent once, under the id
    [cb0]. *)
Definition port_with_sum_callback : PortState :=
  final (mapValue app_host (VFun sum_handler) new_Port).

(** A Port that received the peer's function [peer1] once: the stub
    [0] stands for it. *)
Definition port_with_stub : PortState :=
  final (unmapValue plain_host (callback_ref (VStr "peer1")) new_Port).


Lemma released_callback_is_refused_witness :
  exists released,
    releaseCallback silent_adapter app_host (VFun sum_handler) false
      port_with_sum_callback = Normal tt released /\
    log released = release_notice (VStr "cb0") :: log port_with_sum_callback /\
    (forall id args altThis reply optional,
       id <> 0 ->
       onData silent_adapter app_host (VStr "") 0
         (call_message id (VStr "cb0") args) altThis reply optional released
       = Normal false
           (set_log
              (cons (reply_event reply (- id)
                       (error_on_wire app_host
                          "Remote callback has been destroyed")))
              released)) /\
    exists s',
      mapValue app_host (VFun sum_handler) released
      = Normal (callback_ref (VStr "cb1")) s'.
Proof.
  apply (released_callback_is_refused silent_adapter app_host sum_handler
           (VStr "cb0") port_with_sum_callback).
  - reflexivity.
  - reflexivity.
  - reflexivity.
Defined.

Lemma stub_call_sends_request_witness :
  (public port_with_stub = false ->
     apply silent_adapter plain_host (FStub 0) VUndef [VNum 4] port_with_stub
     = Throw (closed_error plain_host) port_with_stub) /\
  (public port_with_stub = true -> port port_with_stub = true ->
   exists mapped s1,
     let id := lastId port_with_stub + 1 in
     let message := [VNum id; VNum 0; VStr "peer1"; VArr mapped] in
     let sent := set_log (cons (EvSend "" (VNum 0) message VNull)) s1 in
     array_map (mapValue plain_host) [VNum 4]
       (set_lastId (fun n => n + 1) port_with_stub) = Normal mapped s1 /\
     length mapped = length [VNum 4] /\
     apply silent_adapter plain_host (FStub 0) VUndef [VNum 4] port_with_stub =
       if bool_decide
            (adapter_send silent_adapter "" (VNum 0) message VNull = VUndef)
       then Normal (VPromise (PRequest id))
              (set_requests (mset id (PRequest id)) sent)
       else Normal (adapter_send silent_adapter "" (VNum 0) message VNull) sent).
Proof.
  apply (stub_call_sends_request silent_adapter plain_host 0 (VStr "peer1")
           VUndef [VNum 4] port_with_stub).
  reflexivity.
Defined.

(** ** Outgoing messages: [request], [post], [afterEnded] *)
Section Outbound.
Context (adapter : PortAdapter) (host : Host).

Lemma array_map_mapValue_length (args mapped : list Value) (s s1 : PortState) :
  array_map (mapValue host) args s = Normal mapped s1 ->
  length mapped = length args.
Proof.
  revert mapped s s1.
  induction args as [|v vs IH]; intros mapped s s1 Hmap; simpl in Hmap.
  - cbv [ret] in Hmap. simplify_eq. reflexivity.
  - unfold bind in Hmap.
    destruct (mapValue host v s) as [w s0|e s0]; [|discriminate].
    destruct (array_map (mapValue host) vs s0) as [ws s0'|e s0'] eqn:Hrest;
      [|discriminate].
    cbv [ret] in Hmap. simplify_eq. simpl. f_equal. eapply IH, Hrest.
Qed.

Lemma quiet_encode (args : list Value) (s : PortState) :
  quiet s (final (array_map (mapValue host) args s)).
Proof. apply (preserves_array_map quiet), quiet_mapValue. Qed.

Lemma request_named (argv : list Value) (options : Value) (n : string)
    (args mapped : list Value) (s s1 : PortState) :
  let id := lastId s + 1 in
  let sent := set_log (cons (EvSend n (VNum id) mapped options)) s1 in
  let value := adapter_send adapter n (VNum id) mapped options in
  shift_options argv = (options, VStr n, args) ->
  port s = true ->
  array_map (mapValue host) args (set_lastId (fun k => k + 1) s)
    = Normal mapped s1 ->
  request adapter host argv s =
    if bool_decide (value = VUndef)
    then Normal (VPromise (PRequest id))
           (set_requests (mset id (PRequest id)) sent)
    else Normal value sent.
Proof.
  intros id sent value Hargv Hport Hmap.
  unfold request. rewrite Hargv.
  unfold bind at 1, nextId. fold id.
  unfold bind at 1, port_send. unfold bind at 1, gets at 1.
  cbn [port set_lastId]. rewrite Hport. cbn [negb].
  unfold bind at 1. rewrite Hmap.
  unfold bind at 1, emit, modify. unfold ret at 1.
  fold sent. fold value.
  destruct (bool_decide (value = VUndef)); reflexivity.
Qed.

Lemma post_named (argv : list Value) (options : Value) (n : string)
    (args mapped : list Value) (s s1 : PortState) :
  shift_options argv = (options, VStr n, args) ->
  port s = true ->
  array_map (mapValue host) args s = Normal mapped s1 ->
  post adapter host argv s =
    Normal tt (set_log (cons (EvSend n (VNum 0) mapped options)) s1).
Proof.
  intros Hargv Hport Hmap.
  unfold post. rewrite Hargv.
  unfold bind at 1, port_send. unfold bind at 1, gets at 1.
  rewrite Hport. cbn [negb].
  unfold bind at 1. rewrite Hmap. reflexivity.
Qed.

Lemma afterEnded_named (argv : list Value) (options : Value) (n : string)
    (args mapped : list Value) (s s1 : PortState) :
  shift_options argv = (options, VStr n, args) ->
  port s = true ->
  array_map (mapValue host) args s = Normal mapped s1 ->
  afterEnded adapter host argv s =
    Normal tt
      (set_log
         (cons (EvSend "" (VNum 0) [VNum 0; VNum 1; VStr n; VArr mapped] options))
         s1).
Proof.
  intros Hargv Hport Hmap.
  unfold afterEnded. rewrite Hargv.
  unfold bind at 1, port_send. unfold bind at 1, gets at 1.
  rewrite Hport. cbn [negb].
  unfold bind at 1. unfold bind at 1. rewrite Hmap. reflexivity.
Qed.

(** X9: [request] with a name that is a string.  The id is the
    successor of the last one; one message is handed to the adapter's
    [send], with the name, that id, the arguments mapped one by one and
    the options.  When [send] returns [undefined] a request is filed
    under the id and its promise returned, and every other pending
    request is as before; when [send] returns something else, that is
    returned and nothing is filed, yet the id is spent. *)
Theorem request_is_sent_and_filed
    (argv : list Value) (options : Value) (n : string) (args : list Value)
    (s : PortState) :
  shift_options argv = (options, VStr n, args) ->
  port s = true ->
  exists mapped s1,
    let id := lastId s + 1 in
    let sent := set_log (cons (EvSend n (VNum id) mapped options)) s1 in
    let value := adapter_send adapter n (VNum id) mapped options in
    array_map (mapValue host) args (set_lastId (fun k => k + 1) s)
      = Normal mapped s1 /\
    length mapped = length args /\
    log s1 = log s /\ requests s1 = requests s /\ lastId s1 = id /\
    request adapter host argv s =
      if bool_decide (value = VUndef)
      then Normal (VPromise (PRequest id))
             (set_requests (mset id (PRequest id)) sent)
      else Normal value sent.
Proof.
  intros Hargv Hport.
  destruct (array_map_mapValue_normal host args
              (set_lastId (fun k => k + 1) s)) as (mapped & s1 & Hmap).
  pose proof (quiet_encode args (set_lastId (fun k => k + 1) s)) as Hq.
  rewrite Hmap in Hq. simpl in Hq.
  exists mapped, s1. cbv zeta.
  split; [exact Hmap|].
  split; [exact (array_map_mapValue_length _ _ _ _ Hmap)|].
  split; [exact (quiet_log _ _ Hq)|].
  split; [exact (quiet_requests _ _ Hq)|].
  split; [exact (quiet_lastId _ _ Hq)|].
  exact (request_named argv options n args mapped s s1 Hargv Hport Hmap).
Qed.

(** X10: [post] and [afterEnded] with a name that is a string hand
    one message to the adapter's [send] and return nothing, whatever
    [send] returned: no id is taken and no request is filed.  [post]
    sends the name with the id [0]; [afterEnded] sends the special
    message [[0, 1, name, arguments]]. *)
Theorem post_files_nothing
    (argv : list Value) (options : Value) (n : string) (args : list Value)
    (s : PortState) :
  shift_options argv = (options, VStr n, args) ->
  port s = true ->
  exists mapped s1,
    array_map (mapValue host) args s = Normal mapped s1 /\
    length mapped = length args /\
    log s1 = log s /\ requests s1 = requests s /\ lastId s1 = lastId s /\
    post adapter host argv s =
      Normal tt (set_log (cons (EvSend n (VNum 0) mapped options)) s1) /\
    afterEnded adapter host argv s =
      Normal tt
        (set_log
           (cons (EvSend "" (VNum 0)
                    [VNum 0; VNum 1; VStr n; VArr mapped] options))
           s1).
Proof.
  intros Hargv Hport.
  destruct (array_map_mapValue_normal host args s) as (mapped & s1 & Hmap).
  pose proof (quiet_encode args s) as Hq. rewrite Hmap in Hq. simpl in Hq.
  exists mapped, s1.
  split; [exact Hmap|].
  split; [exact (array_map_mapValue_length _ _ _ _ Hmap)|].
  split; [exact (quiet_log _ _ Hq)|].
  split; [exact (quiet_requests _ _ Hq)|].
  split; [exact (quiet_lastId _ _ Hq)|].
  split.
  - exact (post_named argv options n args mapped s s1 Hargv Hport Hmap).
  - exact (afterEnded_named argv options n args mapped s s1 Hargv Hport Hmap).
Qed.
End Outbound.

Lemma request_is_sent_and_filed_witness :
  exists mapped s1,
    let id := lastId new_Port + 1 in
    let options := literal [("tab", VNum 4)] in
    let sent := set_log (cons (EvSend "sum" (VNum id) mapped options)) s1 in
    let value := adapter_send silent_adapter "sum" (VNum id) mapped options in
    array_map (mapValue plain_host) [VNum 1; VFun on_event]
      (set_lastId (fun k => k + 1) new_Port) = Normal mapped s1 /\
    length mapped = length [VNum 1; VFun on_event] /\
    log s1 = log new_Port /\ requests s1 = requests new_Port /\
    lastId s1 = id /\
    request silent_adapter plain_host
      [literal [("tab", VNum 4)]; VStr "sum"; VNum 1; VFun on_event] new_Port =
      if bool_decide (value = VUndef)
      then Normal (VPromise (PRequest id))
             (set_requests (mset id (PRequest id)) sent)
      else Normal value sent.
Proof.
  apply (request_is_sent_and_filed silent_adapter plain_host
           [literal [("tab", VNum 4)]; VStr "sum"; VNum 1; VFun on_event]
           (literal [("tab", VNum 4)]) "sum" [VNum 1; VFun on_event] new_Port).
  - reflexivity.
  - reflexivity.
Defined.

Lemma post_files_nothing_witness :
  exists mapped s1,
    array_map (mapValue plain_host) [VNum 1; VFun on_event] port_with_requests
      = Normal mapped s1 /\
    length mapped = length [VNum 1; VFun on_event] /\
    log s1 = log port_with_requests /\
    requests s1 = requests port_with_requests /\
    lastId s1 = lastId port_with_requests /\
    post silent_adapter plain_host [VStr "log"; VNum 1; VFun on_event]
      port_with_requests =
      Normal tt (set_log (cons (EvSend "log" (VNum 0) mapped VNull)) s1) /\
    afterEnded silent_adapter plain_host [VStr "log"; VNum 1; VFun on_event]
      port_with_requests =
      Normal tt
        (set_log
           (cons (EvSend "" (VNum 0)
                    [VNum 0; VNum 1; VStr "log"; VArr mapped] VNull))
           s1).
Proof.
  apply (post_files_nothing silent_adapter plain_host
           [VStr "log"; VNum 1; VFun on_event] VNull "log"
           [VNum 1; VFun on_event] port_with_requests).
  - reflexivity.
  - vm_compute. reflexivity.
Defined.

(** ** The public methods as the application calls them *)
Section PublicCalls.
Context (adapter : PortAdapter) (host : Host).

(** A call [port.request(...argv)] of the public method.  The method
    has the three parameters [options], [name] and [args]: they take
    the first three arguments, [undefined] where there is none, and the
    arguments after the third are not read. *)
Definition call_Port_request (argv : list Value) : M Value :=
  Port_request adapter host
    (nth 0 argv VUndef) (nth 1 argv VUndef) (nth 2 argv VUndef).

(** A call [port.post(...argv)] of the public method. *)
Definition call_Port_post (argv : list Value) : M unit :=
  Port_post adapter host
    (nth 0 argv VUndef) (nth 1 argv VUndef) (nth 2 argv VUndef).

(** X11: the public [request] and [post] pass on three arguments,
    not all of them.  Called on an open Port with a string name first,
    each sends a message with exactly two arguments, whatever the
    number given: the first two after the name, [undefined] in place
    of a missing one; a third and later argument is dropped.  (The
    methods of the implementation class, which take [name, ...args],
    send them all.) *)
Theorem public_request_sends_two_arguments
    (n : string) (rest : list Value) (s : PortState) :
  public s = true -> port s = true ->
  let two := [nth 0 rest VUndef; nth 1 rest VUndef] in
  call_Port_request (VStr n :: rest) s = request adapter host (VStr n :: two) s /\
  call_Port_post (VStr n :: rest) s = post adapter host (VStr n :: two) s /\
  exists mapped s1,
    array_map (mapValue host) two (set_lastId (fun k => k + 1) s)
      = Normal mapped s1 /\
    length mapped = 2%nat /\
    log (final (call_Port_request (VStr n :: rest) s))
    = EvSend n (VNum (lastId s + 1)) mapped VNull :: log s.
Proof.
  intros Hopen Hport two.
  assert (call_Port_request (VStr n :: rest) s
          = request adapter host (VStr n :: two) s) as Hrequest.
  { unfold call_Port_request, Port_request, getPrivate, bind, gets.
    rewrite Hopen. reflexivity. }
  split; [exact Hrequest|]. split.
  { unfold call_Port_post, Port_post, getPrivate, bind, gets.
    rewrite Hopen. reflexivity. }
  destruct (array_map_mapValue_normal host two
              (set_lastId (fun k => k + 1) s)) as (mapped & s1 & Hmap).
  pose proof (quiet_encode host two (set_lastId (fun k => k + 1) s)) as Hq.
  rewrite Hmap in Hq. simpl in Hq.
  exists mapped, s1. split; [exact Hmap|].
  split; [exact (array_map_mapValue_length host _ _ _ _ Hmap)|].
  rewrite Hrequest.
  rewrite (request_named adapter host (VStr n :: two) VNull n two mapped s s1
             eq_refl Hport Hmap).
  destruct (bool_decide _); simpl; rewrite (quiet_log _ _ Hq); reflexivity.
Qed.
End PublicCalls.

Lemma public_request_sends_two_arguments_witness :
  let two := [nth 0 [VNum 1; VNum 2; VNum 3] VUndef;
              nth 1 [VNum 1; VNum 2; VNum 3] VUndef] in
  call_Port_request silent_adapter plain_host
    [VStr "sum"; VNum 1; VNum 2; VNum 3] new_Port
  = request silent_adapter plain_host (VStr "sum" :: two) new_Port /\
  call_Port_post silent_adapter plain_host
    [VStr "sum"; VNum 1; VNum 2; VNum 3] new_Port
  = post silent_adapter plain_host (VStr "sum" :: two) new_Port /\
  exists mapped s1,
    array_map (mapValue plain_host) two (set_lastId (fun k => k + 1) new_Port)
      = Normal mapped s1 /\
    length mapped = 2%nat /\
    log (final (call_Port_request silent_adapter plain_host
                  [VStr "sum"; VNum 1; VNum 2; VNum 3] new_Port))
    = EvSend "sum" (VNum (lastId new_Port + 1)) mapped VNull :: log new_Port.
Proof.
  apply (public_request_sends_two_arguments silent_adapter plain_host "sum"
           [VNum 1; VNum 2; VNum 3] new_Port).
  - reflexivity.
  - reflexivity.
Defined.

Example public_request_drops_third_argument :
  log (final (call_Port_request silent_adapter plain_host
                [VStr "sum"; VNum 1; VNum 2; VNum 3] new_Port))
  = [EvSend "sum" (VNum 2) [VNum 1; VNum 2] VNull] /\
  log (final (call_Port_request silent_adapter plain_host [VStr "ping"] new_Port))
  = [EvSend "ping" (VNum 2) [VUndef; VUndef] VNull] /\
  log (final (request silent_adapter plain_host
                [VStr "sum"; VNum 1; VNum 2; VNum 3] new_Port))
  = [EvSend "sum" (VNum 2) [VNum 1; VNum 2; VNum 3] VNull].
Proof. split; [|split]; vm_compute; reflexivity. Qed.

(** ** What the traffic leaves alone

    A property of the fields that no write of the log, of the ids, of
    the pending requests, of the callback maps or of the end queue
    disturbs, and that holds again when a handler has run, is kept by
    every message that comes in or goes out. *)
Section Untouched.
Context (adapter : PortAdapter) (host : Host).
Context (R : PortState -> PortState -> Prop) `{!PreOrder R}.
Hypothesis R_log : forall f s, R s (set_log f s).
Hypothesis R_lastId : forall f s, R s (set_lastId f s).
Hypothesis R_requests : forall f s, R s (set_requests f s).
Hypothesis R_id2cb : forall f s, R s (set_id2cb f s).
Hypothesis R_cb2id : forall f s, R s (set_cb2id f s).
Hypothesis R_randomCalls : forall f s, R s (set_randomCalls f s).
Hypothesis R_closures : forall f s, R s (set_closures f s).
Hypothesis R_endQueue : forall f s, R s (set_endQueue f s).
Hypothesis R_handler_call : forall {A} (m : M A) flag,
  preserves R m ->
  preserves R
    (try_finally (modify (set_isRequest (fun _ => flag)) >> m)
                 (set_isRequest (fun _ => 0))).

Lemma untouched_emit (e : Event) : preserves R (emit e).
Proof. intros s. apply R_log. Qed.

Lemma untouched_nextId : preserves R nextId.
Proof. intros s. apply R_lastId. Qed.

Lemma untouched_callRandomId : preserves R (callRandomId host).
Proof. intros s. apply R_randomCalls. Qed.

Lemma untouched_new_stub (cbId : Value) : preserves R (new_stub cbId).
Proof. intros s. apply R_closures. Qed.

Lemma untouched_modify (f : PortState -> PortState) :
  (forall s, R s (f s)) -> preserves R (modify f).
Proof. intros Hf s. apply Hf. Qed.

Hint Resolve untouched_emit untouched_nextId untouched_callRandomId
  untouched_new_stub : frames.
Hint Extern 1 (preserves R (modify _)) =>
  apply untouched_modify; intros ?;
  first [apply R_log | apply R_lastId | apply R_requests | apply R_id2cb
        | apply R_cb2id | apply R_endQueue] : frames.
Hint Extern 1 (preserves R (reportError _)) => apply untouched_emit : frames.

Lemma untouched_mapValue (v : Value) : preserves R (mapValue host v).
Proof. unfold mapValue. frame. Qed.

Lemma untouched_unmapValue (v : Value) : preserves R (unmapValue host v).
Proof. unfold unmapValue. frame. Qed.

Hint Resolve untouched_mapValue untouched_unmapValue : frames.

Lemma untouched_port_send name id (args : M (list Value)) options :
  preserves R args ->
  preserves R (port_send adapter host name id args options).
Proof. intros Hargs. unfold port_send. frame. Qed.

Lemma untouched_callStub (cbId : Value) (args : list Value) :
  preserves R (callStub adapter host cbId args).
Proof. unfold callStub. frame. apply untouched_port_send. frame. Qed.

Lemma untouched_apply (f : FunRef) (thisArg : Value) (args : list Value) :
  preserves R (apply adapter host f thisArg args).
Proof. unfold apply. destruct f; frame. apply untouched_callStub. Qed.

Lemma untouched_respond (reply : option nat) (id value : Value) :
  preserves R (respond adapter host reply id value).
Proof.
  unfold respond. destruct reply; frame. apply untouched_port_send. frame.
Qed.

Hint Resolve untouched_apply untouched_respond : frames.

Lemma untouched_after_call (id value : Value) (reply : option nat) :
  preserves R (after_call adapter host id value reply).
Proof. unfold after_call. frame. Qed.

Lemma untouched_on_error (id : Value) (reply : option nat) (error : Value) :
  preserves R (on_error adapter host id reply error).
Proof. unfold on_error. frame. Qed.

Lemma untouched_map_unmap (array : Value) : preserves R (map_unmap host array).
Proof. unfold map_unmap. frame. Qed.

Hint Resolve untouched_after_call untouched_on_error
  untouched_map_unmap : frames.

Lemma untouched_special_request (args : Value) (reply : option nat)
    (s : PortState) :
  R s (final (snd (special_request adapter host args reply s))).
Proof.
  unfold special_request.
  destruct (js_index args 0) as [id|]; simpl; [|reflexivity].
  destruct (index_or_undefined args 1) as [| | |n| | | | | | |]; try reflexivity.
  destruct n as [|tag|tag]; try reflexivity.
  - revert s. change (preserves R
      (let* callback :=
         gets (fun s => mget (index_or_undefined args 2) (id2cb s)) in
       match callback with
       | None => throw (mkError host "Error" "Remote callback has been destroyed")
       | Some callback =>
           let* cargs := map_unmap host (index_or_undefined args 3) in
           let* value := apply adapter host callback VNull cargs in
           after_call adapter host id value reply
       end)).
    frame.
  - destruct tag as [tag|tag|]; try reflexivity.
    + destruct tag; try reflexivity. apply R_endQueue.
    + apply R_endQueue.
Qed.

Lemma untouched_named_request name id args altThis reply optional :
  preserves R (named_request adapter host name id args altThis reply optional).
Proof. unfold named_request. frame. Qed.

Lemma untouched_resolve_reply id args :
  preserves R (resolve_reply host id args).
Proof. unfold resolve_reply. frame. Qed.

Lemma untouched_onData name id args altThis reply optional :
  preserves R (onData adapter host name id args altThis reply optional).
Proof.
  intros s. unfold onData. destruct (truthy name || (id =? 0)).
  - destruct (negb (truthy name) && (id =? 0)).
    + pose proof (untouched_special_request args reply s) as Hs.
      destruct (special_request adapter host args reply s)
        as [id' [b s1|e s1]]; simpl in *; [exact Hs|].
      etransitivity; [exact Hs | apply untouched_on_error].
    + pose proof (untouched_named_request name id args altThis reply
                    optional s) as Hs.
      destruct (named_request adapter host name id args altThis reply optional s)
        as [b s1|e s1]; simpl in *; [exact Hs|].
      etransitivity; [exact Hs | apply untouched_on_error].
  - revert s. apply (preserves_try_catch R).
    + apply untouched_resolve_reply.
    + intros e. frame.
Qed.

Lemma untouched_request argv : preserves R (request adapter host argv).
Proof.
  unfold request. destruct (shift_options argv) as [[options name] args].
  destruct name; try apply (preserves_throw R).
  frame. apply untouched_port_send. frame.
Qed.

Lemma untouched_post argv : preserves R (post adapter host argv).
Proof.
  unfold post. destruct (shift_options argv) as [[options name] args].
  destruct name; try apply (preserves_throw R).
  frame. apply untouched_port_send. frame.
Qed.

Lemma untouched_afterEnded argv : preserves R (afterEnded adapter host argv).
Proof.
  unfold afterEnded. destruct (shift_options argv) as [[options name] args].
  destruct name; try apply (preserves_throw R).
  frame. apply untouched_port_send. frame.
Qed.

Lemma untouched_releaseCallback callback remote :
  preserves R (releaseCallback adapter host callback remote).
Proof. unfold releaseCallback. frame. apply untouched_port_send. frame. Qed.

Lemma untouched_guarded {A} (m : M A) :
  preserves R m -> preserves R (getPrivate host >> m).
Proof. intros Hm. unfold getPrivate. frame. Qed.

Lemma untouched_discard {A} (m : M A) :
  preserves R m -> preserves R (m >> ret tt).
Proof. intros Hm. frame. Qed.

(** The calls that neither register nor remove a handler and do not
    end the Port. *)
Definition is_traffic (op : Op) : bool :=
  match op with
  | CallAddHandler _ _ _ | CallAddHandlers _ _ _ | CallRemoveHandler _
  | CallDestroy _ | AdapterEnd _ => false
  | _ => true
  end.

Lemma untouched_perform (op : Op) :
  is_traffic op = true -> preserves R (perform adapter host op).
Proof.
  intros Hop. destruct op; try discriminate; simpl.
  - apply untouched_discard, untouched_guarded. unfold hasHandler. frame.
  - apply untouched_discard, untouched_guarded, untouched_request.
  - apply untouched_guarded, untouched_post.
  - apply untouched_guarded, untouched_afterEnded.
  - apply untouched_discard, untouched_guarded. unfold isRequest. frame.
  - apply untouched_guarded, untouched_releaseCallback.
  - frame. apply untouched_callStub.
  - frame. apply untouched_onData.
Qed.
End Untouched.

(** ** The handlers stay registered *)

(** The registry of handlers is as it was. *)
Record registered (s s' : PortState) : Prop := {
  registered_handlers : handlers s' = handlers s;
  registered_wildcards : wildcards s' = wildcards s
}.

#[global] Instance registered_preorder : PreOrder registered.
Proof.
  split.
  - intros s. split; reflexivity.
  - intros s1 s2 s3 [H1 H2] [H3 H4]. split; congruence.
Qed.

Section Registered.
Context (adapter : PortAdapter) (host : Host).

Lemma registered_handler_call {A} (m : M A) (flag : Z) :
  preserves registered m ->
  preserves registered
    (try_finally (modify (set_isRequest (fun _ => flag)) >> m)
                 (set_isRequest (fun _ => 0))).
Proof.
  intros Hm s. unfold try_finally, bind, modify.
  pose proof (Hm (set_isRequest (fun _ => flag) s)) as [Hh Hw].
  destruct (m (set_isRequest (fun _ => flag) s)); split; assumption.
Qed.

Lemma registered_onData name id args altThis reply optional :
  preserves registered
    (onData adapter host name id args altThis reply optional).
Proof.
  apply (untouched_onData adapter host registered);
    try (intros; split; reflexivity).
  intros A m flag. apply registered_handler_call.
Qed.

Lemma registered_perform (op : Op) :
  is_traffic op = true -> preserves registered (perform adapter host op).
Proof.
  apply (untouched_perform adapter host registered);
    try (intros; split; reflexivity).
  intros A m flag. apply registered_handler_call.
Qed.

(** X13: a handler, once registered, stays registered with its
    [thisArg]: whatever message arrives (request, post, callback call,
    reply, queued message), and whatever the application sends,
    releases or asks, the exact handlers and the wildcards are as
    before.  Only [addHandler], [addHandlers], [removeHandler] and the
    end of the Port change them. *)
Theorem handlers_stay_registered (ops : list Op) (s : PortState) :
  forallb is_traffic ops = true ->
  handlers (run adapter host ops s) = handlers s /\
  wildcards (run adapter host ops s) = wildcards s.
Proof.
  revert s. induction ops as [|op ops IH]; intros s Hops; simpl in *.
  - split; reflexivity.
  - apply andb_true_iff in Hops as [Hop Hops].
    destruct (IH (step adapter host s op) Hops) as [Hh Hw].
    destruct (registered_perform op Hop s) as [Hh1 Hw1].
    unfold step in *. split; congruence.
Qed.
End Registered.

(** ** The flag of [isRequest] *)

(** The flag is neutral afterwards if it was before. *)
Definition idle (s s' : PortState) : Prop :=
  _isRequest s = 0 -> _isRequest s' = 0.

#[global] Instance idle_preorder : PreOrder idle.
Proof.
  split.
  - intros s H. exact H.
  - intros s1 s2 s3 H1 H2 H. apply H2, H1, H.
Qed.

Section Idle.
Context (adapter : PortAdapter) (host : Host).

Lemma idle_field (f : PortState -> PortState) :
  (forall s, _isRequest (f s) = _isRequest s) -> preserves idle (modify f).
Proof. intros Hf s H. simpl. rewrite Hf. exact H. Qed.

Lemma idle_handler_call {A} (m : M A) (flag : Z) :
  preserves idle
    (try_finally (modify (set_isRequest (fun _ => flag)) >> m)
                 (set_isRequest (fun _ => 0))).
Proof.
  intros s _. unfold try_finally, bind, modify.
  destruct (m (set_isRequest (fun _ => flag) s)); reflexivity.
Qed.

Lemma idle_onData name id args altThis reply optional :
  preserves idle (onData adapter host name id args altThis reply optional).
Proof.
  apply (untouched_onData adapter host idle); try (intros f s H; exact H).
  intros A m flag _. apply idle_handler_call.
Qed.

Lemma idle_traffic (op : Op) :
  is_traffic op = true -> preserves idle (perform adapter host op).
Proof.
  apply (untouched_perform adapter host idle); try (intros f s H; exact H).
  intros A m flag _. apply idle_handler_call.
Qed.

Hint Extern 1 (preserves idle (modify _)) =>
  apply idle_field; reflexivity : frames.
Hint Extern 1 (preserves idle (emit _)) =>
  apply idle_field; reflexivity : frames.
Hint Resolve idle_onData : frames.

Lemma idle_addHandler name handler thisArg :
  preserves idle (addHandler host name handler thisArg).
Proof.
  unfold addHandler.
  destruct name; (destruct handler; [frame ..]).
Qed.

Lemma idle_addHandlers prefix handlers thisArg :
  preserves idle (addHandlers host prefix handlers thisArg).
Proof.
  assert (forall entry, preserves idle (check_entry host entry)) as Hcheck.
  { intros entry. unfold check_entry. frame. }
  assert (forall p t entry, preserves idle (set_entry host p t entry)) as Hset.
  { intros p t [name []]; unfold set_entry; frame. }
  unfold addHandlers.
  destruct (bool_decide (typeof prefix = "object")); [|destruct prefix]; frame.
Qed.

Lemma idle_destroy error : preserves idle (destroy adapter host error).
Proof.
  unfold destroy, flush_endQueue, reject_pending, destroy_adapter. frame.
Qed.

Lemma idle_perform (op : Op) : preserves idle (perform adapter host op).
Proof.
  destruct (is_traffic op) eqn:Hop; [apply idle_traffic, Hop|].
  destruct op; try discriminate; simpl;
    unfold Port_addHandler, Port_addHandlers, Port_removeHandler,
      Port_destroy, getPrivate.
  - frame. apply idle_addHandler.
  - frame. apply idle_addHandlers.
  - unfold removeHandler. frame.
  - frame; [apply idle_destroy | apply idle_field; reflexivity].
  - apply idle_destroy.
Qed.

Lemma idle_run (ops : list Op) (s : PortState) :
  idle s (run adapter host ops s).
Proof.
  revert s. induction ops as [|op ops IH]; intros s; simpl; [reflexivity|].
  etransitivity; [apply idle_perform | apply IH].
Qed.

(** X14: between messages the flag of [isRequest] is neutral.  In
    every state the Port reaches from [new Port], by any calls of the
    application and of the adapter, [isRequest] throws: it has an
    answer only while a handler runs. *)
Theorem isRequest_throws_between_messages (s : PortState) :
  reachable adapter host s ->
  _isRequest s = 0 /\
  isRequest host s =
    Throw (mkError host "Error"
             "Port.isRequest() may only be called while the port is in a synchronous handler")
          s /\
  exists error, Port_isRequest host s = Throw error s.
Proof.
  intros [ops ->].
  assert (_isRequest (run adapter host ops new_Port) = 0) as Hflag.
  { apply idle_run. reflexivity. }
  split; [exact Hflag|]. split.
  - unfold isRequest, bind, gets. rewrite Hflag. reflexivity.
  - unfold Port_isRequest, getPrivate, isRequest, bind, gets.
    destruct (public _); simpl; [rewrite Hflag|]; eexists; reflexivity.
Qed.
End Idle.

(** ** The ids of the pending requests *)
Section RequestIds.
Context (adapter : PortAdapter) (host : Host).






End RequestIds.

(** ** Messages kept for the end of the Port *)
Section EndQueue.
Context (adapter : PortAdapter) (host : Host).

(** The first loop of [destroy]: the queued messages are handled in
    the order of the queue, each as a post: id [0], no [altThis], no
    reply function. *)
Definition replay (queue : list (Value * Value)) (s : PortState) : PortState :=
  fold_left
    (fun s entry =>
       final (onData adapter host (fst entry) 0 (snd entry) VUndef None false s))
    queue s.

Lemma replay_app (queue : list (Value * Value)) (entry : Value * Value)
    (s : PortState) :
  replay (queue ++ [entry]) s
  = final (onData adapter host (fst entry) 0 (snd entry) VUndef None false
             (replay queue s)).
Proof. unfold replay. rewrite fold_left_app. reflexivity. Qed.

Lemma flush_entries_replay (queue : list (Value * Value)) (s : PortState) :
  port s = true ->
  for_each (fun entry =>
              onData adapter host (fst entry) 0 (snd entry) VUndef None false
              >> ret tt) queue s
  = Normal tt (replay queue s) /\
  steady s (replay queue s).
Proof.
  revert s. induction queue as [|[name args] queue IH]; intros s Hport; simpl.
  - split; reflexivity.
  - unfold bind at 1. unfold bind at 1.
    assert (truthy name || (0 =? 0) = true) as Hreq by apply orb_true_r.
    pose proof (steady_onData_request adapter host name 0 args VUndef None
                  false Hreq s) as Hs.
    destruct (onData_request_normal adapter host name 0 args VUndef None false
                s Hreq (fun _ => Hport)) as (b & s1 & Hrun).
    rewrite Hrun in *. simpl in *.
    destruct (IH s1) as (Hrest & Hs2).
    { rewrite (steady_port _ _ Hs). exact Hport. }
    split; [exact Hrest|]. etransitivity; eassumption.
Qed.

Lemma registered_replay (queue : list (Value * Value)) (s : PortState) :
  registered s (replay queue s).
Proof.
  revert s. induction queue as [|entry queue IH]; intros s; simpl; [reflexivity|].
  etransitivity; [|apply IH].
  apply (registered_onData adapter host).
Qed.

Lemma destroy_replays (error : Value) (s : PortState) :
  public s = true -> port s = true ->
  destroy adapter host error s
  = Normal tt (closed adapter host error (replay (endQueue s) s)).
Proof.
  intros Hopen Hport.
  destruct (flush_entries_replay (endQueue s) s Hport) as (Hflush & Hs).
  unfold destroy. unfold bind at 1. unfold gets at 1. rewrite Hopen. simpl.
  unfold bind at 1. unfold flush_endQueue, bind at 1, gets at 1.
  rewrite Hflush.
  unfold bind at 1. unfold reject_pending, bind at 1, gets at 1.
  rewrite for_each_emit.
  assert (port (replay (endQueue s) s) = true) as Hport1.
  { rewrite (steady_port _ _ Hs). exact Hport. }
  unfold destroy_adapter, try_catch, bind, gets, modify, emit, closed. simpl.
  rewrite Hport1. simpl.
  destruct (adapter_destroy adapter); reflexivity.
Qed.

(** X12: a message the peer sent with [afterEnded] is not handled
    when it arrives: [onData] appends its name and its arguments, still
    encoded, to the end queue and replies nothing.  [destroy] handles
    the queue first, in the order of arrival and each message as a post
    (id [0], so nothing is replied), while the handlers are still
    registered; only then it rejects the pending requests and clears the
    handlers. *)
Theorem queued_message_runs_at_destroy
    (first name args altThis error : Value) (reply : option nat)
    (optional : bool) (s : PortState) :
  public s = true -> port s = true ->
  let queued := set_endQueue (fun q => (q ++ [(name, args)])%list) s in
  onData adapter host (VStr "") 0 (VArr [first; VNum 1; name; args])
    altThis reply optional s = Normal false queued /\
  destroy adapter host error queued
  = Normal tt
      (closed adapter host error
         (final (onData adapter host name 0 args VUndef None false
                   (replay (endQueue s) queued)))) /\
  handlers (replay (endQueue s) queued) = handlers s /\
  public (replay (endQueue s) queued) = true.
Proof.
  intros Hopen Hport queued.
  split; [reflexivity|].
  destruct (flush_entries_replay (endQueue s) queued Hport) as (_ & Hs).
  split.
  - rewrite (destroy_replays error queued Hopen Hport).
    change (endQueue queued) with (endQueue s ++ [(name, args)])%list.
    rewrite replay_app. reflexivity.
  - split; [|rewrite (steady_public _ _ Hs); exact Hopen].
    exact (registered_handlers _ _ (registered_replay (endQueue s) queued)).
Qed.
End EndQueue.

Lemma queued_message_runs_at_destroy_witness :
  let queued :=
    set_endQueue (fun q => (q ++ [(VStr "sum", VArr [VNum 2; VNum 3])])%list)
      port_with_app in
  onData silent_adapter app_host (VStr "") 0
    (VArr [VNum 0; VNum 1; VStr "sum"; VArr [VNum 2; VNum 3]])
    VUndef None false port_with_app = Normal false queued /\
  destroy silent_adapter app_host VUndef queued
  = Normal tt
      (closed silent_adapter app_host VUndef
         (final (onData silent_adapter app_host (VStr "sum") 0
                   (VArr [VNum 2; VNum 3]) VUndef None false
                   (replay silent_adapter app_host (endQueue port_with_app)
                      queued)))) /\
  handlers (replay silent_adapter app_host (endQueue port_with_app) queued)
    = handlers port_with_app /\
  public (replay silent_adapter app_host (endQueue port_with_app) queued) = true.
Proof.
  apply (queued_message_runs_at_destroy silent_adapter app_host
           (VNum 0) (VStr "sum") (VArr [VNum 2; VNum 3]) VUndef VUndef None
           false port_with_app).
  - reflexivity.
  - reflexivity.
Defined.

(** The handler [sum] runs when the Port ends, on the message that was
    queued, and before the end is announced. *)
Example afterEnded_example :
  exists queued ended,
    onData silent_adapter app_host (VStr "") 0
      (VArr [VNum 0; VNum 1; VStr "sum"; VArr [VNum 2; VNum 3]])
      VUndef None false port_with_app = Normal false queued /\
    log queued = [] /\
    destroy silent_adapter app_host VUndef queued = Normal tt ended /\
    log ended =
      [EvAdapterDestroy; EvOnEnd VNull;
       EvApply sum_handler VNull [VNum 2; VNum 3]].
Proof.
  eexists _, _. split; [vm_compute; reflexivity|].
  split; [vm_compute; reflexivity|].
  split; vm_compute; reflexivity.
Qed.

Lemma handlers_stay_registered_witness :
  let ops :=
    [AdapterData (VStr "sum") 7 (VArr [VNum 2; VNum 3]) VUndef None false;
     AdapterData (VStr "none") 8 (VArr []) VUndef None false;
     CallRequest (VStr "peer") (VFun sum_handler) VUndef;
     AdapterData (VStr "") 2 (VArr [VNum 1]) VUndef None false;
     CallReleaseCallback (VFun sum_handler)] in
  handlers (run silent_adapter app_host ops port_with_app)
    = handlers port_with_app /\
  wildcards (run silent_adapter app_host ops port_with_app)
    = wildcards port_with_app.
Proof.
  apply (handlers_stay_registered silent_adapter app_host
           [AdapterData (VStr "sum") 7 (VArr [VNum 2; VNum 3]) VUndef None false;
            AdapterData (VStr "none") 8 (VArr []) VUndef None false;
            CallRequest (VStr "peer") (VFun sum_handler) VUndef;
            AdapterData (VStr "") 2 (VArr [VNum 1]) VUndef None false;
            CallReleaseCallback (VFun sum_handler)]
           port_with_app).
  reflexivity.
Defined.

Lemma isRequest_throws_between_messages_witness :
  _isRequest port_with_requests = 0 /\
  isRequest plain_host port_with_requests =
    Throw (mkError plain_host "Error"
             "Port.isRequest() may only be called while the port is in a synchronous handler")
          port_with_requests /\
  exists error, Port_isRequest plain_host port_with_requests
                = Throw error port_with_requests.
Proof.
  apply (isRequest_throws_between_messages silent_adapter plain_host
           port_with_requests).
  exists [CallRequest (VStr "a") VUndef VUndef;
          CallRequest (VStr "b") VUndef VUndef;
          CallRequest (VStr "c") VUndef VUndef].
  reflexivity.
Defined.


(** ** Errors across the Port *)
Section ErrorCrossing.
Context (sender receiver : Host).

(** What [mapValue] makes of an error: [{ '': 2, name, message, ... }]. *)
Definition wire_of_error (e : Value) : Value :=
  literal
    [("", VNum 2);
     ("name", VStr (toStr sender (getProp "name" e)));
     ("message", VStr (toStr sender (getProp "message" e)));
     ("stack", VStr (toStr sender (getProp "stack" e)));
     ("code", only_typeof ["number"; "string"] (getProp "code" e));
     ("status", only_typeof ["number"; "string"] (getProp "status" e));
     ("expose", only_typeof ["boolean"] (getProp "expose" e));
     ("fileName", only_typeof ["string"] (getProp "fileName" e));
     ("lineNumber", only_typeof ["number"] (getProp "lineNumber" e));
     ("columnNumber", only_typeof ["number"] (getProp "columnNumber" e))].

(** [new (typeof globalThis[name] === 'function' ? globalThis[name] : Error)]
    on the receiving side, when the constructor returns. *)
Definition construct (name : string) : option Value :=
  match new_global receiver (VStr name) with
  | Some (inl object) => Some object
  | Some (inr _) => None
  | None => Some (mkError receiver "Error" "")
  end.

(** The error the receiving side builds from [wire_of_error e] on the
    object [target] its constructor made. *)
Definition received_error (target e : Value) : Value :=
  object_assign target (delete_prop "" (wire_of_error e)).

Lemma mapValue_error (cls : string) (props : list (string * Value))
    (s : PortState) :
  ends_with "Error" cls = true ->
  mhas "" props = false ->
  mapValue sender (VObj (Some cls) props) s
  = Normal (wire_of_error (VObj (Some cls) props)) s.
Proof.
  intros Hcls Hkey. unfold mapValue. simpl. rewrite Hkey. simpl.
  unfold isErrorLike. simpl. rewrite Hcls. reflexivity.
Qed.

Lemma unmapValue_error (e target : Value) (s : PortState) :
  construct (toStr sender (getProp "name" e)) = Some target ->
  unmapValue receiver (wire_of_error e) s
  = Normal (received_error target e) s.
Proof.
  unfold construct. intros Hnew. unfold unmapValue. simpl.
  destruct (new_global receiver (VStr (toStr sender (getProp "name" e))))
    as [[object|thrown]|]; simplify_eq; reflexivity.
Qed.

Lemma received_error_props (c : option string)
    (tprops : list (string * Value)) (e : Value) :
  let e' := received_error (VObj c tprops) e in
  constructorName e' = c /\
  getProp "name" e' = VStr (toStr sender (getProp "name" e)) /\
  getProp "message" e' = VStr (toStr sender (getProp "message" e)) /\
  getProp "stack" e' = VStr (toStr sender (getProp "stack" e)) /\
  getProp "code" e' = only_typeof ["number"; "string"] (getProp "code" e) /\
  getProp "status" e' = only_typeof ["number"; "string"] (getProp "status" e).
Proof.
  cbv zeta. unfold received_error, wire_of_error, literal, delete_prop,
    object_assign. simpl.
  repeat split;
    (rewrite ?mget_mset_ne by discriminate; rewrite mget_mset_eq; reflexivity).
Qed.

(** X16: an error object (an object whose class name ends in
    [Error], without the key ['']) goes through [mapValue] on one side
    and [unmapValue] on the other as an error again, and neither method
    touches the Port.  The object the receiver gets is a new one: of
    the class the receiver's global of the error's name makes, or of
    the class [Error] when there is no such function, with the
    sender's [name], [message] and [stack] as strings and with [code]
    and [status] when they are numbers or strings. *)
Theorem error_crosses_as_error
    (cls : string) (props : list (string * Value))
    (c : option string) (tprops : list (string * Value))
    (s r : PortState) :
  let e := VObj (Some cls) props in
  ends_with "Error" cls = true ->
  mhas "" props = false ->
  construct (toStr sender (getProp "name" e)) = Some (VObj c tprops) ->
  exists wire e',
    mapValue sender e s = Normal wire s /\
    unmapValue receiver wire r = Normal e' r /\
    constructorName e' = c /\
    getProp "name" e' = VStr (toStr sender (getProp "name" e)) /\
    getProp "message" e' = VStr (toStr sender (getProp "message" e)) /\
    getProp "stack" e' = VStr (toStr sender (getProp "stack" e)) /\
    getProp "code" e' = only_typeof ["number"; "string"] (getProp "code" e) /\
    getProp "status" e' = only_typeof ["number"; "string"] (getProp "status" e).
Proof.
  intros e Hcls Hkey Hnew.
  exists (wire_of_error e), (received_error (VObj c tprops) e).
  split; [exact (mapValue_error cls props s Hcls Hkey)|].
  split; [exact (unmapValue_error e (VObj c tprops) r Hnew)|].
  exact (received_error_props c tprops e).
Qed.
End ErrorCrossing.

Lemma error_crosses_as_error_witness :
  let e :=
    VObj (Some "RangeError")
      [("name", VStr "RangeError"); ("message", VStr "bad"); ("stack", VStr "")] in
  exists wire e',
    mapValue app_host e port_with_app = Normal wire port_with_app /\
    unmapValue app_host wire new_Port = Normal e' new_Port /\
    constructorName e' = Some "RangeError" /\
    getProp "name" e' = VStr (toStr app_host (getProp "name" e)) /\
    getProp "message" e' = VStr (toStr app_host (getProp "message" e)) /\
    getProp "stack" e' = VStr (toStr app_host (getProp "stack" e)) /\
    getProp "code" e' = only_typeof ["number"; "string"] (getProp "code" e) /\
    getProp "status" e' = only_typeof ["number"; "string"] (getProp "status" e).
Proof.
  apply (error_crosses_as_error app_host app_host "RangeError"
           [("name", VStr "RangeError"); ("message", VStr "bad");
            ("stack", VStr "")]
           (Some "RangeError")
           [("name", VStr "RangeError"); ("message", VStr "");
            ("stack", VStr "")]
           port_with_app new_Port).
  - reflexivity.
  - reflexivity.
  - reflexivity.
Defined.

(** ** Two Ports and the channel between them

    The adapter of the receiving side calls [onData] with the name, the
    id and the arguments the sending side gave to [send]: on a channel
    that delivers them as they were given, this is [deliver] of the
    logged [send]. *)




Section Transfer.
Context (host : Host).




End Transfer.

Section Link.
Context (adapter : PortAdapter) (host : Host).





End Link.

Section LinkCallbacks.
Context (adapter : PortAdapter) (host : Host).




End LinkCallbacks.

(** ** A request and its answer, from end to end *)
Section EndToEnd.
Context (adapterA adapterB : PortAdapter) (hostA hostB : Host).



End EndToEnd.




(** * The module [namespace.js]

    A name space gives every key object a private object of its own;
    a marker remembers one mark per key object.  Objects are known by
    their addresses. *)
Module NameSpaceJs.

(** The map of one name space, and the number of objects made so far,
    by the name space or elsewhere: [{ }] makes the object of that
    number. *)
Record Space := mkSpace {
  store : list (nat * nat);
  allocated : nat
}.

(** [NameSpace()] and [IterableNameSpace()], called when [n] objects
    exist. *)
Definition empty (n : nat) : Space := mkSpace [] n.

(** [function(key) { let value = map.get(key);
      if (value === undefined) { map.set(key, value = { }); }
      return value; }] *)
Definition NameSpace (key : nat) (s : Space) : nat * Space :=
  match mget key (store s) with
  | Some value => (value, s)
  | None =>
      (allocated s, mkSpace (mset key (allocated s) (store s)) (S (allocated s)))
  end.

(** [forEach: map.forEach.bind(map)]: the arguments [(value, key)] of
    the calls of the callback, in the order of the map. *)
Definition forEach (s : Space) : list (nat * nat) :=
  map (fun entry => (snd entry, fst entry)) (store s).

(** [destroy: map.clear.bind(map)] *)
Definition destroy (s : Space) : Space := mkSpace [] (allocated s).

(** What happens to a name space: it is asked for the object of a key,
    it is cleared (the iterable one only), and objects are made
    elsewhere in the program. *)
Inductive Use :=
| Ask (key : nat)
| Clear
| Elsewhere.

#[global] Instance Use_eq_dec : EqDecision Use.
Proof. solve_decision. Defined.

Definition use (u : Use) (s : Space) : option nat * Space :=
  match u with
  | Ask key => (Some (fst (NameSpace key s)), snd (NameSpace key s))
  | Clear => (None, destroy s)
  | Elsewhere => (None, mkSpace (store s) (S (allocated s)))
  end.

Definition after (us : list Use) (s : Space) : Space :=
  fold_left (fun s u => snd (use u s)) us s.

Fixpoint results (us : list Use) (s : Space) : list (option nat) :=
  match us with
  | [] => []
  | u :: us' => fst (use u s) :: results us' (snd (use u s))
  end.

(** [function(key, now) { const old = map.get(key);
      arguments.length > 1 && map.set(key, now); return old; }]:
    [now] is [None] when the call has one argument. *)
Definition Marker (key : nat) (now : option Value) (marks : list (nat * Value))
    : Value * list (nat * Value) :=
  (default VUndef (mget key marks),
   match now with
   | Some mark => mset key mark marks
   | None => marks
   end).

Definition marked (calls : list (nat * option Value))
    (marks : list (nat * Value)) : list (nat * Value) :=
  fold_left (fun marks call => snd (Marker (fst call) (snd call) marks))
    calls marks.

(** The values of the map are objects the program made, and no object
    is the value of two keys. *)
Record sound (s : Space) : Prop := {
  sound_made : forall k v, mget k (store s) = Some v -> (v < allocated s)%nat;
  sound_private : forall k k' v,
    mget k (store s) = Some v -> mget k' (store s) = Some v -> k = k'
}.

Lemma sound_empty (n : nat) : sound (empty n).
Proof. split; simpl; intros; discriminate. Qed.

Lemma sound_use (u : Use) (s : Space) : sound s -> sound (snd (use u s)).
Proof.
  intros [Hmade Hprivate]. destruct u as [key| |]; simpl.
  - unfold NameSpace. destruct (mget key (store s)) as [value|] eqn:Hget; simpl.
    + split; assumption.
    + split; simpl.
      * intros k v Hk. destruct (decide (key = k)) as [->|Hne].
        -- rewrite mget_mset_eq in Hk. injection Hk as <-. lia.
        -- rewrite mget_mset_ne in Hk by exact Hne. apply Hmade in Hk. lia.
      * intros k k' v Hk Hk'.
        destruct (decide (key = k)) as [Heq|Hne];
          destruct (decide (key = k')) as [Heq'|Hne']; try congruence.
        -- subst k. rewrite mget_mset_eq in Hk. injection Hk as <-.
           rewrite mget_mset_ne in Hk' by exact Hne'. apply Hmade in Hk'. lia.
        -- subst k'. rewrite mget_mset_eq in Hk'. injection Hk' as <-.
           rewrite mget_mset_ne in Hk by exact Hne. apply Hmade in Hk. lia.
        -- rewrite mget_mset_ne in Hk by exact Hne.
           rewrite mget_mset_ne in Hk' by exact Hne'. eauto.
  - split; simpl; intros; discriminate.
  - split; simpl; [|exact Hprivate].
    intros k v Hk. apply Hmade in Hk. lia.
Qed.

Lemma sound_after (us : list Use) (s : Space) : sound s -> sound (after us s).
Proof.
  revert s. induction us as [|u us IH]; intros s Hs; simpl; [exact Hs|].
  apply IH, sound_use, Hs.
Qed.

Lemma after_app (us vs : list Use) (s : Space) :
  after (us ++ vs) s = after vs (after us s).
Proof. unfold after. apply fold_left_app. Qed.

Lemma results_app (us vs : list Use) (s : Space) :
  results (us ++ vs) s = (results us s ++ results vs (after us s))%list.
Proof.
  revert s. induction us as [|u us IH]; intros s; simpl; [reflexivity|].
  rewrite IH. reflexivity.
Qed.

Lemma results_length (us : list Use) (s : Space) :
  length (results us s) = length us.
Proof.
  revert s. induction us as [|u us IH]; intros s; simpl; [reflexivity|].
  rewrite IH. reflexivity.
Qed.

Lemma ask_stores (key : nat) (s : Space) :
  mget key (store (snd (NameSpace key s))) = Some (fst (NameSpace key s)).
Proof.
  unfold NameSpace. destruct (mget key (store s)) as [value|] eqn:Hget; simpl.
  - exact Hget.
  - apply mget_mset_eq.
Qed.

Lemma use_keeps (u : Use) (k v : nat) (s : Space) :
  u <> Clear ->
  mget k (store s) = Some v -> mget k (store (snd (use u s))) = Some v.
Proof.
  intros Hu Hk. destruct u as [key| |]; simpl; [|contradiction|exact Hk].
  unfold NameSpace. destruct (mget key (store s)) as [value|] eqn:Hget; simpl.
  - exact Hk.
  - rewrite mget_mset_ne; [exact Hk|]. intros ->. congruence.
Qed.

Lemma after_keeps (us : list Use) (k v : nat) (s : Space) :
  ~ In Clear us ->
  mget k (store s) = Some v -> mget k (store (after us s)) = Some v.
Proof.
  revert s. induction us as [|u us IH]; intros s Hus Hk; simpl; [exact Hk|].
  apply IH; [intros Hin; apply Hus; right; exact Hin|].
  apply use_keeps; [|exact Hk]. intros ->. apply Hus. left. reflexivity.
Qed.

(** All the map holds are objects made after the first [a]. *)
Definition recent (a : nat) (s : Space) : Prop :=
  (a <= allocated s)%nat /\
  forall k v, mget k (store s) = Some v -> (a <= v)%nat.

Lemma recent_use (a : nat) (u : Use) (s : Space) :
  recent a s ->
  recent a (snd (use u s)) /\
  forall v, fst (use u s) = Some v -> (a <= v)%nat.
Proof.
  intros [Ha Hstore]. destruct u as [key| |]; simpl.
  - unfold NameSpace. destruct (mget key (store s)) as [value|] eqn:Hget; simpl.
    + split; [split; assumption|]. intros v [= <-]. eauto.
    + split; [split; simpl; [lia|]|].
      * intros k v Hk. destruct (decide (key = k)) as [->|Hne].
        -- rewrite mget_mset_eq in Hk. injection Hk as <-. exact Ha.
        -- rewrite mget_mset_ne in Hk by exact Hne. eauto.
      * intros v [= <-]. exact Ha.
  - split; [split; simpl; [exact Ha | intros; discriminate]|]. discriminate.
  - split; [split; simpl; [lia | exact Hstore]|]. discriminate.
Qed.

Lemma recent_results (a : nat) (us : list Use) (s : Space) :
  recent a s ->
  forall v, In (Some v) (results us s) -> (a <= v)%nat.
Proof.
  revert s. induction us as [|u us IH]; intros s Hs v Hin; simpl in Hin;
    [contradiction|].
  destruct (recent_use a u s Hs) as [Hs' Hres].
  destruct Hin as [Hhere|Hlater]; [apply Hres, Hhere | eapply IH; eassumption].
Qed.

Lemma after_allocated (us : list Use) (s : Space) :
  (allocated s <= allocated (after us s))%nat.
Proof.
  revert s. induction us as [|u us IH]; intros s; simpl; [lia|].
  etransitivity; [|apply IH].
  destruct u as [key| |]; simpl; try lia.
  unfold NameSpace. destruct (mget key (store s)); simpl; lia.
Qed.

(** The object a key has in the map is found by [forEach]. *)
Lemma forEach_finds (key value : nat) (s : Space) :
  mget key (store s) = Some value -> In (value, key) (forEach s).
Proof.
  intros Hget. unfold forEach. apply in_map_iff.
  exists (key, value). split; [reflexivity | apply mget_In, Hget].
Qed.
End NameSpaceJs.

Section NameSpaces.
Import NameSpaceJs.

(** X20: a name space gives every key one private object.  In any
    run of a name space made by [NameSpace()] or [IterableNameSpace()],
    two requests give the same object exactly when they are for the same
    key and the name space was not cleared by [destroy] in between:
    another key never gets the object of this one, and after [destroy]
    a key gets a new object, different from the one it had. *)
Theorem private_object_per_key
    (before between later : list Use) (key1 key2 n : nat) :
  let us := (before ++ Ask key1 :: between ++ Ask key2 :: later)%list in
  exists object1 object2,
    results us (empty n) !! length before = Some (Some object1) /\
    results us (empty n) !! (length before + 1 + length between)%nat
      = Some (Some object2) /\
    (object1 = object2 <-> key1 = key2 /\ ~ In Clear between).
Proof.
  intros us.
  set (s0 := after before (empty n)).
  set (s1 := snd (NameSpace key1 s0)).
  set (s2 := after between s1).
  exists (fst (NameSpace key1 s0)), (fst (NameSpace key2 s2)).
  assert (results us (empty n)
          = (results before (empty n) ++
             Some (fst (NameSpace key1 s0)) ::
             results between s1 ++
             Some (fst (NameSpace key2 s2)) :: results later (snd (NameSpace key2 s2)))%list)
    as Hres.
  { unfold us. rewrite results_app. simpl. rewrite results_app. reflexivity. }
  split.
  { rewrite Hres. rewrite lookup_app_r by (rewrite results_length; lia).
    rewrite results_length, Nat.sub_diag. reflexivity. }
  split.
  { rewrite Hres. rewrite lookup_app_r by (rewrite results_length; lia).
    rewrite results_length.
    replace (length before + 1 + length between - length before)%nat
      with (S (length between)) by lia.
    simpl. rewrite lookup_app_r by (rewrite results_length; lia).
    rewrite results_length, Nat.sub_diag. reflexivity. }
  assert (sound s0) as Hs0 by apply sound_after, sound_empty.
  assert (sound s1) as Hs1 by apply (sound_use (Ask key1) s0 Hs0).
  pose proof (ask_stores key1 s0) as Hstored1. fold s1 in Hstored1.
  destruct (In_dec Use_eq_dec Clear between) as [Hclear|Hnone].
  - split; [|intros [_ Hno]; contradiction].
    intros Hsame. exfalso.
    apply in_split in Hclear as (mid1 & mid2 & Hmid).
    set (t := after mid1 s1).
    assert (recent (allocated t) (destroy t)) as Hrecent.
    { split; simpl; [lia | intros; discriminate]. }
    assert (In (Some (fst (NameSpace key2 s2)))
              (results (mid2 ++ [Ask key2]) (destroy t))) as Hin.
    { rewrite results_app. apply in_or_app. right. simpl. left.
      unfold s2. rewrite Hmid, after_app. reflexivity. }
    pose proof (recent_results _ _ _ Hrecent _ Hin) as Hnew.
    pose proof (sound_made s1 Hs1 _ _ Hstored1) as Hold.
    pose proof (after_allocated mid1 s1) as Hgrow. fold t in Hgrow.
    rewrite <- Hsame in Hnew. lia.
  - assert (mget key1 (store s2) = Some (fst (NameSpace key1 s0))) as Hkept.
    { apply after_keeps; assumption. }
    assert (sound s2) as Hs2 by apply sound_after, Hs1.
    pose proof (sound_use (Ask key2) s2 Hs2) as Hs3. simpl in Hs3.
    pose proof (ask_stores key2 s2) as Hstored2.
    pose proof (use_keeps (Ask key2) _ _ s2 ltac:(discriminate) Hkept) as Hkept3.
    simpl in Hkept3.
    split.
    + intros Hsame. split; [|exact Hnone].
      rewrite <- Hsame in Hstored2.
      exact (sound_private _ Hs3 _ _ _ Hkept3 Hstored2).
    + intros [<- _]. congruence.
Qed.

(** X21: a marker returns the mark the key was last given.  After a
    call with a mark, calls with other keys and calls that only read do
    not change what the marker returns for the key; a key that was never
    given a mark reads as [undefined]; and a call with one argument
    changes nothing at all. *)
Theorem Marker_returns_last_mark
    (before between : list (nat * option Value)) (key : nat) (mark : Value)
    (now : option Value) :
  (forall call, In call between -> fst call = key -> snd call = None) ->
  fst (Marker key now (marked (before ++ (key, Some mark) :: between)%list []))
    = mark /\
  ((forall call, In call before -> fst call = key -> snd call = None) ->
   fst (Marker key now (marked before [])) = VUndef) /\
  forall marks, snd (Marker key None marks) = marks.
Proof.
  intros Hbetween.
  assert (forall calls marks,
            (forall call, In call calls -> fst call = key -> snd call = None) ->
            mget key (marked calls marks) = mget key marks) as Hread.
  { induction calls as [|[k [v|]] calls IH]; intros marks Hcalls; simpl;
      [reflexivity| |].
    - rewrite IH by (intros call Hin; apply Hcalls; right; exact Hin).
      apply mget_mset_ne. intros ->.
      specialize (Hcalls (key, Some v) (or_introl eq_refl) eq_refl).
      discriminate.
    - apply IH. intros call Hin. apply Hcalls. right. exact Hin. }
  split; [|split].
  - unfold marked. rewrite fold_left_app.
    change (default VUndef
              (mget key (marked between (mset key mark (marked before []))))
            = mark).
    rewrite Hread by exact Hbetween.
    rewrite mget_mset_eq. reflexivity.
  - intros Hbefore. simpl. rewrite Hread by exact Hbefore. reflexivity.
  - reflexivity.
Qed.
End NameSpaces.

Lemma Marker_returns_last_mark_witness :
  let before := [(4%nat, Some (VNum 1)); (5%nat, None)] in
  let between := [(5%nat, Some (VNum 2)); (4%nat, None)] in
  fst (NameSpaceJs.Marker 4 None
         (NameSpaceJs.marked
            (before ++ (4%nat, Some (VStr "seen")) :: between)%list []))
    = VStr "seen" /\
  ((forall call, In call before -> fst call = 4%nat -> snd call = None) ->
   fst (NameSpaceJs.Marker 4 None (NameSpaceJs.marked before [])) = VUndef) /\
  forall marks, snd (NameSpaceJs.Marker 4 None marks) = marks.
Proof.
  apply (Marker_returns_last_mark
           [(4%nat, Some (VNum 1)); (5%nat, None)]
           [(5%nat, Some (VNum 2)); (4%nat, None)] 4%nat (VStr "seen") None).
  intros call [<-|[<-|[]]] Hkey; [discriminate | reflexivity].
Defined.

Example name_space_example :
  NameSpaceJs.results
    [NameSpaceJs.Ask 0; NameSpaceJs.Ask 1; NameSpaceJs.Elsewhere;
     NameSpaceJs.Ask 0; NameSpaceJs.Clear; NameSpaceJs.Ask 0]
    (NameSpaceJs.empty 2)
  = [Some 2; Some 3; None; Some 2; None; Some 5]%nat.
Proof. vm_compute. reflexivity. Qed.

(** * What remains to be said of [onData] *)
Section Robust.
Context (adapter : PortAdapter) (host : Host).


(** X23: the two builds, [index.esm.js] and the older [index.js],
    handle every message alike but one.  Their [onData] agree on every
    message that is no special request with the tag [2], the release
    notice only the newer build knows: the older build answers it as a
    bad request.  And [releaseCallback] of the older build, which takes
    no [remote] argument, does what the newer one does for a release
    that came from the peer: it forgets the function and sends
    nothing. *)
Theorem builds_differ_in_release_only
    (name : Value) (id : Z) (args altThis : Value) (reply : option nat)
    (optional : bool) (callback : Value) (s : PortState) :
  (negb (truthy name) && (id =? 0) = true ->
   index_or_undefined args 1 <> VNum 2) ->
  IndexJs.onData adapter host name id args altThis reply optional s
    = onData adapter host name id args altThis reply optional s /\
  IndexJs.releaseCallback callback s
    = releaseCallback adapter host callback true s.
Proof.
  intros Htag. split.
  - unfold IndexJs.onData, onData.
    destruct (truthy name || (id =? 0)); [|reflexivity].
    destruct (negb (truthy name) && (id =? 0)); [|reflexivity].
    specialize (Htag eq_refl).
    unfold IndexJs.special_request, special_request.
    destruct (js_index args 0) as [id'|]; [|reflexivity].
    destruct (index_or_undefined args 1) as [| | |tag| | | | | | |];
      try reflexivity.
    destruct tag as [|tag|tag]; try reflexivity.
    destruct tag as [tag|tag|]; try reflexivity.
    destruct tag; try reflexivity. contradiction.
  - unfold IndexJs.releaseCallback, releaseCallback, bind, gets, modify.
    destruct (negb (truthy _)); reflexivity.
Qed.
End Robust.


Lemma builds_differ_in_release_only_witness :
  IndexJs.onData silent_adapter plain_host (VStr "") 0
    (VArr [VNum 5; VNum 0; VStr "cb0"; VArr []]) VUndef None false
    port_with_callback
  = onData silent_adapter plain_host (VStr "") 0
      (VArr [VNum 5; VNum 0; VStr "cb0"; VArr []]) VUndef None false
      port_with_callback /\
  IndexJs.releaseCallback (VFun on_event) port_with_callback
  = releaseCallback silent_adapter plain_host (VFun on_event) true
      port_with_callback.
Proof.
  apply (builds_differ_in_release_only silent_adapter plain_host (VStr "") 0
           (VArr [VNum 5; VNum 0; VStr "cb0"; VArr []]) VUndef None false
           (VFun on_event) port_with_callback).
  intros _. discriminate.
Defined.

(** * Registering a batch of handlers *)
Section Batch.
Context (host : Host).

Lemma append_cancel (p a b : string) : p +:+ a = p +:+ b -> a = b.
Proof.
  induction p as [|ch p IH]; simpl; intros Heq; [exact Heq|].
  injection Heq as Heq. auto.
Qed.

Lemma mget_unique {V} (k : string) (v : V) (m : list (string * V)) :
  List.NoDup (map fst m) -> In (k, v) m -> mget k m = Some v.
Proof.
  induction m as [|[k0 v0] m IH]; simpl; intros Hnd Hin; [contradiction|].
  apply List.NoDup_cons_iff in Hnd as [Hfresh Hnd].
  destruct (decide (k = k0)) as [->|Hne].
  - destruct Hin as [[= ->]|Hin]; [reflexivity|].
    exfalso. apply Hfresh.
    apply in_map_iff. exists (k0, v). split; [reflexivity | exact Hin].
  - destruct Hin as [[= -> ->]|Hin]; [contradiction | auto].
Qed.

(** The entries [Object.keys(handlers).map(k => [k, handlers[k]])] of
    an object whose keys are distinct. *)
Lemma object_entries (c : option string) (props : list (string * Value)) :
  List.NoDup (map fst props) ->
  map (fun k => (VStr k, getProp k (VObj c props))) (map fst props)
  = map (fun kv => (VStr (fst kv), snd kv)) props.
Proof.
  intros Hnd. rewrite map_map. apply map_ext_in. intros [k v] Hin. simpl.
  rewrite (mget_unique k v props Hnd Hin). reflexivity.
Qed.

(** What the second pass of [addHandlers] does to the exact
    handlers. *)
Definition register (prefix : string) (thisArg : Value)
    (hs : list (string * (FunRef * Value))) (entry : Value * Value)
    : list (string * (FunRef * Value)) :=
  match entry with
  | (name, VFun handler) => mset (prefix +:+ toStr host name) (handler, thisArg) hs
  | _ => hs
  end.

Lemma set_entries_fold (prefix : string) (thisArg : Value)
    (add : list (Value * Value)) (s : PortState) :
  exists s',
    for_each (set_entry host prefix thisArg) add s = Normal tt s' /\
    handlers s' = fold_left (register prefix thisArg) add (handlers s) /\
    wildcards s' = wildcards s /\ log s' = log s /\ requests s' = requests s.
Proof.
  revert s. induction add as [|[name handler] add IH]; intros s; simpl.
  - exists s. repeat split; reflexivity.
  - unfold bind, set_entry at 1.
    destruct handler;
      try (destruct (IH s) as (s' & Hrun & Hh & Hw & Hl & Hr);
           exists s'; repeat split; assumption).
    unfold modify.
    destruct (IH (set_handlers
                    (mset (prefix +:+ toStr host name) (f, thisArg)) s))
      as (s' & Hrun & Hh & Hw & Hl & Hr).
    exists s'. repeat split; assumption.
Qed.

Lemma check_entries_pass (add : list (Value * Value)) (s : PortState) :
  (forall entry, In entry add ->
     exists k, fst entry = VStr k /\ k <> "" /\ mget k (handlers s) = None) ->
  for_each (check_entry host) add s = Normal tt s.
Proof.
  induction add as [|entry add IH]; simpl; intros Hok; [reflexivity|].
  destruct (Hok entry (or_introl eq_refl)) as (k & Hname & Hk & Hfree).
  unfold bind, check_entry at 1. rewrite Hname.
  rewrite bool_decide_eq_false_2 by exact Hk.
  unfold bind, gets, mhas. rewrite Hfree. simpl.
  apply IH. intros e Hin. apply Hok. right. exact Hin.
Qed.

Lemma register_other (prefix : string) (thisArg : Value)
    (add : list (Value * Value)) (m : string)
    (hs : list (string * (FunRef * Value))) :
  (forall name f, In (name, VFun f) add -> m <> prefix +:+ toStr host name) ->
  mget m (fold_left (register prefix thisArg) add hs) = mget m hs.
Proof.
  revert hs. induction add as [|[name handler] add IH]; intros hs Hother; simpl;
    [reflexivity|].
  rewrite IH by (intros n g Hin; apply (Hother n g); right; exact Hin).
  destruct handler; try reflexivity.
  apply mget_mset_ne. intros Heq.
  apply (Hother name f (or_introl eq_refl)). symmetry. exact Heq.
Qed.

Lemma register_entry (prefix : string) (thisArg : Value)
    (props : list (string * Value)) (k : string) (f : FunRef)
    (hs : list (string * (FunRef * Value))) :
  List.NoDup (map fst props) -> In (k, VFun f) props ->
  mget (prefix +:+ k)
    (fold_left (register prefix thisArg)
       (List.filter (fun entry => bool_decide (typeof (snd entry) = "function"))
          (map (fun kv => (VStr (fst kv), snd kv)) props))
       hs)
  = Some (f, thisArg).
Proof.
  revert hs. induction props as [|[k0 v0] props IH]; intros hs Hnd Hin;
    [contradiction|].
  simpl in Hnd. apply List.NoDup_cons_iff in Hnd as [Hfresh Hnd].
  destruct Hin as [[= -> ->]|Hin].
  - simpl. rewrite register_other.
    + apply mget_mset_eq.
    + intros name g Hlater Heq. apply append_cancel in Heq.
      apply filter_In in Hlater as [Hlater _].
      apply in_map_iff in Hlater as ([k1 v1] & [= <- ->] & Hlater).
      simpl in Heq. subst k1. apply Hfresh.
      apply in_map_iff. exists (k, VFun g). split; [reflexivity | exact Hlater].
  - simpl. destruct (bool_decide (typeof v0 = "function")); simpl; auto.
Qed.

(** X24: a batch that passes the checks is registered as a whole.
    [addHandlers] with a string prefix and an object whose function
    entries have names that are not empty and not taken by an exact
    handler registers every function entry under the prefix followed by
    its name, with [thisArg]; entries that are no functions are passed
    over, every other name keeps the handler it had (or none), and the
    wildcards are as before. *)
Theorem addHandlers_registers_functions
    (prefix : string) (c : option string) (props : list (string * Value))
    (thisArg : Value) (s : PortState) :
  List.NoDup (map fst props) ->
  (forall k f, In (k, VFun f) props -> k <> "" /\ mget k (handlers s) = None) ->
  exists s',
    addHandlers host (VStr prefix) (VObj c props) thisArg s = Normal tt s' /\
    (forall k f, In (k, VFun f) props ->
       mget (prefix +:+ k) (handlers s') = Some (f, thisArg)) /\
    (forall m, (forall k f, In (k, VFun f) props -> m <> prefix +:+ k) ->
       mget m (handlers s') = mget m (handlers s)) /\
    wildcards s' = wildcards s /\ log s' = log s /\ requests s' = requests s.
Proof.
  intros Hnd Hok.
  set (add := List.filter
                (fun entry => bool_decide (typeof (snd entry) = "function"))
                (map (fun kv => (VStr (fst kv), snd kv)) props)).
  assert (forall name handler, In (name, handler) add ->
            exists k f, name = VStr k /\ handler = VFun f /\
                        In (k, VFun f) props) as Hadd.
  { intros name handler Hin. apply filter_In in Hin as [Hin Hfun].
    apply in_map_iff in Hin as ([k v] & [= <- <-] & Hin). simpl in Hfun.
    destruct v; try discriminate. eauto. }
  destruct (set_entries_fold prefix thisArg add s)
    as (s' & Hset & Hh & Hw & Hl & Hr).
  exists s'. split.
  { unfold addHandlers. simpl. unfold bind at 1. unfold ret at 1.
    change (map (fun k => (VStr k, default VUndef (mget k props))) (map fst props))
      with (map (fun k => (VStr k, getProp k (VObj c props))) (map fst props)).
    rewrite (object_entries c props Hnd). fold add.
    unfold bind. rewrite check_entries_pass; [exact Hset|].
    intros [name handler] Hin.
    destruct (Hadd name handler Hin) as (k & f & -> & -> & Hprops).
    exists k. split; [reflexivity|]. apply (Hok k f Hprops). }
  split.
  { intros k f Hin. rewrite Hh. apply register_entry; assumption. }
  split.
  { intros m Hother. rewrite Hh. apply register_other.
    intros name f Hin.
    destruct (Hadd name (VFun f) Hin) as (k & f' & -> & [= <-] & Hprops).
    simpl. eauto. }
  auto.
Qed.
End Batch.

Lemma addHandlers_registers_functions_witness :
  exists s',
    addHandlers plain_host (VStr "math.")
      (literal [("sum", VFun on_event); ("version", VNum 3); ("b", VFun get_b)])
      VNull port_with_handler = Normal tt s' /\
    (forall k f,
       In (k, VFun f)
          [("sum", VFun on_event); ("version", VNum 3); ("b", VFun get_b)] ->
       mget ("math." +:+ k) (handlers s') = Some (f, VNull)) /\
    (forall m,
       (forall k f,
          In (k, VFun f)
             [("sum", VFun on_event); ("version", VNum 3); ("b", VFun get_b)] ->
          m <> "math." +:+ k) ->
       mget m (handlers s') = mget m (handlers port_with_handler)) /\
    wildcards s' = wildcards port_with_handler /\
    log s' = log port_with_handler /\
    requests s' = requests port_with_handler.
Proof.
  apply (addHandlers_registers_functions plain_host "math." (Some "Object")
           [("sum", VFun on_event); ("version", VNum 3); ("b", VFun get_b)]
           VNull port_with_handler).
  - repeat constructor; simpl; intuition discriminate.
  - intros k f [[= <- <-]|[[=]|[[= <- <-]|[]]]];
      (split; [discriminate | reflexivity]).
Defined.

(** * A release notice at the end of the Port *)
Section ReleaseAtEnd.
Context (adapter : PortAdapter) (host : Host).

Lemma onData_without_arguments (n : string) (altThis : Value)
    (reply : option nat) (optional : bool) (s : PortState) :
  n <> "" ->
  onData adapter host (VStr n) 0 VUndef altThis reply optional s
  = Normal false
      (set_log
         (cons (EvReportError
                  [VStr "Uncaught error in handler (post)"; js_TypeError host]))
         s).
Proof.
  intros Hn. unfold onData. rewrite (truthy_name n Hn). reflexivity.
Qed.

(** X25: the release notice of the peer is handled at the end of
    the Port.  [onData] puts the pair of the callback id and
    [undefined] on the end queue, and [destroy] replays it as a post
    under the name of the id and without arguments: no handler and no
    callback is called for it, and the one effect is a report of the
    [TypeError] the missing arguments raise, made before the pending
    requests are rejected. *)
Theorem release_notice_is_reported_at_destroy
    (cb : string) (first altThis error : Value) (reply : option nat)
    (optional : bool) (s : PortState) :
  cb <> "" -> public s = true -> port s = true -> endQueue s = [] ->
  let queued := set_endQueue (fun q => (q ++ [(VStr cb, VUndef)])%list) s in
  onData adapter host (VStr "") 0 (VArr [first; VNum 2; VStr cb])
    altThis reply optional s = Normal false queued /\
  destroy adapter host error queued
  = Normal tt
      (closed adapter host error
         (set_log
            (cons (EvReportError
                     [VStr "Uncaught error in handler (post)";
                      js_TypeError host]))
            queued)).
Proof.
  intros Hcb Hopen Hport Hempty queued.
  split; [reflexivity|].
  rewrite (destroy_replays adapter host error queued Hopen Hport).
  change (endQueue queued) with (endQueue s ++ [(VStr cb, VUndef)])%list.
  rewrite Hempty. simpl.
  rewrite (onData_without_arguments cb VUndef None false queued Hcb).
  reflexivity.
Qed.
End ReleaseAtEnd.

Lemma release_notice_is_reported_at_destroy_witness :
  let queued :=
    set_endQueue (fun q => (q ++ [(VStr "cb0", VUndef)])%list)
      port_with_callback in
  onData silent_adapter plain_host (VStr "") 0
    (VArr [VNum 0; VNum 2; VStr "cb0"]) VUndef None false port_with_callback
    = Normal false queued /\
  destroy silent_adapter plain_host VUndef queued
  = Normal tt
      (closed silent_adapter plain_host VUndef
         (set_log
            (cons (EvReportError
                     [VStr "Uncaught error in handler (post)";
                      js_TypeError plain_host]))
            queued)).
Proof.
  apply (release_notice_is_reported_at_destroy silent_adapter plain_host
           "cb0" (VNum 0) VUndef VUndef None false port_with_callback).
  - discriminate.
  - reflexivity.
  - reflexivity.
  - reflexivity.
Defined.
